(** * Verification model of the hls-server job pipeline

    Shallow embedding of [src/src/worker/redis_consumer.ts] (the job runner
    [processJob], the ladder builder inside it, [generateMasterPlaylist] and
    the queue-level observer [queueEvents]) together with the submission
    step of [src/src/app.ts] that creates the status record and enqueues the
    job.  The external world (Redis, ffprobe, the two worker threads,
    Cloudinary, the file system) is an explicit environment record whose
    fields decide every outcome the code can observe. *)

From stdpp Require Import gmap strings list.
From Stdlib Require Import Ascii Sorting.Sorted.
From Stdlib Require DecimalPos.

Local Open Scope Z_scope.

(* ------------------------------------------------------------------ *)
(** ** JavaScript string helpers *)

(** Digits of a [Decimal.uint], most significant first, as JS prints them. *)
Fixpoint uint_str (u : Decimal.uint) : string :=
  match u with
  | Decimal.Nil => ""
  | Decimal.D0 u => String "0" (uint_str u)
  | Decimal.D1 u => String "1" (uint_str u)
  | Decimal.D2 u => String "2" (uint_str u)
  | Decimal.D3 u => String "3" (uint_str u)
  | Decimal.D4 u => String "4" (uint_str u)
  | Decimal.D5 u => String "5" (uint_str u)
  | Decimal.D6 u => String "6" (uint_str u)
  | Decimal.D7 u => String "7" (uint_str u)
  | Decimal.D8 u => String "8" (uint_str u)
  | Decimal.D9 u => String "9" (uint_str u)
  end.

(** [`${n}`] for an integral JS number [n]. *)
Definition zstr (z : Z) : string :=
  match z with
  | Z0 => "0"
  | Zpos p => uint_str (Pos.to_uint p)
  | Zneg p => String "-" (uint_str (Pos.to_uint p))
  end.

Definition nl : ascii := Ascii.ascii_of_nat 10.
Definition NL : string := String nl EmptyString.

(** [s.split("\n")]. *)
Fixpoint lines (s : string) : list string :=
  match s with
  | EmptyString => [EmptyString]
  | String c s' =>
      if Ascii.eqb c nl then EmptyString :: lines s'
      else match lines s' with
           | x :: xs => String c x :: xs
           | [] => [String c EmptyString]
           end
  end.

(** ASCII whitespace removed by [String.prototype.trim]. *)
Definition js_space (c : ascii) : bool :=
  let n := Ascii.nat_of_ascii c in
  (n =? 32)%nat || (9 <=? n)%nat && (n <=? 13)%nat.

Fixpoint trim_start (s : string) : string :=
  match s with
  | EmptyString => EmptyString
  | String c s' => if js_space c then trim_start s' else s
  end.

Fixpoint rev_str (s : string) (acc : string) : string :=
  match s with
  | EmptyString => acc
  | String c s' => rev_str s' (String c acc)
  end.

Definition js_trim (s : string) : string :=
  rev_str (trim_start (rev_str (trim_start s) EmptyString)) EmptyString.

(* ------------------------------------------------------------------ *)
(** ** Rungs, the ladder builder and the master playlist *)

(** [{ dir: string; height: number; width: number }] *)
Record Rung := { dir : string; height : Z; width : Z }.

Definition mkRung (d : string) (h w : Z) : Rung :=
  {| dir := d; height := h; width := w |}.

(** [uploadSubDir.push(x)] *)
Definition push {A} (l : list A) (x : A) : list A := l ++ [x].

(** Lines 157-181 of [processJob]: the rung list built from the probed
    [height] under the job's [uploadDir]. *)
Definition buildLadder (uploadDir : string) (height : Z) : list Rung :=
  let u := [mkRung (uploadDir +:+ "/360p") 360 640] in
  let u := if 480 <=? height then push u (mkRung (uploadDir +:+ "/480p") 480 854) else u in
  let u := if 720 <=? height then push u (mkRung (uploadDir +:+ "/720p") 720 1280) else u in
  let u := if 1080 <=? height then push u (mkRung (uploadDir +:+ "/1080p") 1080 1920) else u in
  let u := if 1620 <=? height then push u (mkRung (uploadDir +:+ "/1620p") 1620 2880) else u in
  let u := if 2430 <=? height then push u (mkRung (uploadDir +:+ "/2430p") 2430 4320) else u in
  u.

(** [Array.prototype.map] with the index argument. *)
Fixpoint mapi_from {A B} (f : nat -> A -> B) (i : nat) (l : list A) : list B :=
  match l with
  | [] => []
  | x :: l' => f i x :: mapi_from f (S i) l'
  end.

(** The template literal of one master-playlist entry. *)
Definition stream_entry (i : nat) (elem : Rung) : string :=
  "#EXT-X-STREAM-INF:BANDWIDTH=" +:+ zstr ((Z.of_nat i + 1) * 250000)
  +:+ ",RESOLUTION=" +:+ zstr (width elem) +:+ "x" +:+ zstr (height elem)
  +:+ NL +:+ zstr (height elem) +:+ "p/index.m3u8".

(** [generateMasterPlaylist]: [["#EXTM3U", ...map(...)].join("\n")]. *)
Definition generateMasterPlaylist (uploadSubDir : list Rung) : string :=
  String.concat NL ("#EXTM3U" :: mapi_from stream_entry 0 uploadSubDir).

(** The double quote character, used by the JSON serialiser below. *)
Definition dq : ascii := Ascii.ascii_of_nat 34.
Definition DQ : string := String dq EmptyString.

Definition hex_digit (n : nat) : string :=
  String (Ascii.ascii_of_nat (if (n <? 10)%nat then 48 + n else 87 + n)) EmptyString.

(** The escaping [JSON.stringify] applies to a string's characters. *)
Fixpoint json_escape (s : string) : string :=
  match s with
  | EmptyString => EmptyString
  | String c s' =>
      let n := Ascii.nat_of_ascii c in
      let e :=
        if (n =? 34)%nat then "\" +:+ DQ
        else if (n =? 92)%nat then "\\"
        else if (n =? 8)%nat then "\b"
        else if (n =? 9)%nat then "\t"
        else if (n =? 10)%nat then "\n"
        else if (n =? 12)%nat then "\f"
        else if (n =? 13)%nat then "\r"
        else if (n <? 32)%nat then "\u00" +:+ hex_digit (n / 16) +:+ hex_digit (n mod 16)
        else String c EmptyString in
      e +:+ json_escape s'
  end.

Definition json_string (s : string) : string := DQ +:+ json_escape s +:+ DQ.

(** [JSON.stringify(urls)] for [urls : { type: number; url: string }[]]. *)
Definition json_url (tu : Z * string) : string :=
  "{" +:+ json_string "type" +:+ ":" +:+ zstr tu.1 +:+ ","
  +:+ json_string "url" +:+ ":" +:+ json_string tu.2 +:+ "}".

Definition json_urls (urls : list (Z * string)) : string :=
  "[" +:+ String.concat "," (map json_url urls) +:+ "]".

(* ------------------------------------------------------------------ *)
(** ** The environment *)

(** The [redis.hset] call sites: five milestones and the error write of
    [processJob], and the two writes of the queue observer. *)
Inductive HPoint :=
  | HChecking | HProcessing | HGenerating | HUploadingMaster | HCompleted
  | HError | HObsFailed | HObsCompleted.

(** When the upload worker thread posts its result, relative to the job
    runner: while the runner awaits the "Processing & Uploading" write,
    while it awaits [ffmpegPromise] (before the FFmpeg thread answers), or
    after the FFmpeg thread has answered. *)
Inductive UpWhen := UpDuringStatus | UpDuringTranscode | UpAfterTranscode.

Record Env := {
  (** [None]: the write is acknowledged; [Some m]: the call rejects with [m]. *)
  env_hset : HPoint -> option string;
  (** [getVideoResolution]: [inl m] when ffprobe or the JSON access throws. *)
  env_probe : string + (Z * Z);
  env_mkdir : string -> option string;
  (** [runFFmpegWorker]: [None] resolves, [Some m] rejects with [m]. *)
  env_ffmpeg : option string;
  (** The FFmpeg thread answers while the runner still awaits the
      "Processing & Uploading" write. *)
  env_ff_early : bool;
  (** [runUploadWorker]: [inl m] rejects, [inr urls] resolves. *)
  env_upload : string + list (Z * string);
  env_up_when : UpWhen;
  env_write : option string;
  (** [uploadToCloudinary] of the master playlist: [inr url] resolves. *)
  env_cloud : string + string;
  env_rm : string -> option string
}.

(** [job.data] as enqueued by [app.ts]. *)
Record Job := {
  videoId : string;
  inputFilePath : string;
  uploadDir : string;
  inputDir : string
}.

(** The BullMQ job options of [videoQueue.add] that matter here. *)
Record JobOpts := { removeOnComplete : bool; removeOnFail : bool }.

(** [{ attempts: 1, backoff: 0, removeOnComplete: true, removeOnFail: true }] *)
Definition app_opts : JobOpts := {| removeOnComplete := true; removeOnFail := true |}.

(* ------------------------------------------------------------------ *)
(** ** State and the pipeline monad *)

(** Observable effects, in the order they happen. *)
Inductive Ev :=
  | EvHset (key : string) (fields : list (string * string))
  | EvMkdir (path : string)
  | EvWriteFile (path content : string)
  | EvUpload (path folder : string)
  | EvRm (path : string)
  | EvLog (msg : string).

Record St := {
  st_store : gmap string (gmap string string);  (** Redis hashes *)
  st_dirs : gset string;
  st_files : gmap string string;
  st_queue : gmap string (Job * JobOpts);        (** BullMQ jobs by job id *)
  st_trace : list Ev;
  st_launched : bool;      (** both worker threads have been started *)
  st_ff_attached : bool;   (** [await ffmpegPromise] has been reached *)
  st_up_attached : bool    (** [await uploadPromise] has been reached *)
}.

Definition set_store (s : gmap string (gmap string string)) (st : St) : St :=
  {| st_store := s; st_dirs := st_dirs st; st_files := st_files st; st_queue := st_queue st;
     st_trace := st_trace st; st_launched := st_launched st;
     st_ff_attached := st_ff_attached st; st_up_attached := st_up_attached st |}.
Definition set_fs (d : gset string) (f : gmap string string) (st : St) : St :=
  {| st_store := st_store st; st_dirs := d; st_files := f; st_queue := st_queue st;
     st_trace := st_trace st; st_launched := st_launched st;
     st_ff_attached := st_ff_attached st; st_up_attached := st_up_attached st |}.
Definition set_queue (q : gmap string (Job * JobOpts)) (st : St) : St :=
  {| st_store := st_store st; st_dirs := st_dirs st; st_files := st_files st; st_queue := q;
     st_trace := st_trace st; st_launched := st_launched st;
     st_ff_attached := st_ff_attached st; st_up_attached := st_up_attached st |}.
Definition emit (e : Ev) (st : St) : St :=
  {| st_store := st_store st; st_dirs := st_dirs st; st_files := st_files st; st_queue := st_queue st;
     st_trace := st_trace st ++ [e]; st_launched := st_launched st;
     st_ff_attached := st_ff_attached st; st_up_attached := st_up_attached st |}.
Definition set_flags (l f u : bool) (st : St) : St :=
  {| st_store := st_store st; st_dirs := st_dirs st; st_files := st_files st; st_queue := st_queue st;
     st_trace := st_trace st; st_launched := l; st_ff_attached := f; st_up_attached := u |}.

(** How an async step ends: it resolves, it rejects (an exception the
    enclosing [try] can catch), or an unhandled rejection brings the Node
    process down (Node 21, the Dockerfile's base image, raises unhandled
    rejections as uncaught exceptions). *)
Inductive Res (A : Type) := ROk (a : A) | RThrow (m : string) | RCrash (m : string).
Arguments ROk {A} a.
Arguments RThrow {A} m.
Arguments RCrash {A} m.

Definition M (A : Type) : Type := St -> St * Res A.

Global Instance M_ret : MRet M := fun A a st => (st, ROk a).
Global Instance M_bind : MBind M := fun A B k c st =>
  match c st with
  | (st', ROk a) => k a st'
  | (st', RThrow m) => (st', RThrow m)
  | (st', RCrash m) => (st', RCrash m)
  end.

Definition throw {A} (m : string) : M A := fun st => (st, RThrow m).
Definition crash {A} (m : string) : M A := fun st => (st, RCrash m).

(** [try { c } catch (err) { h(err.message) }] *)
Definition catch (c : M unit) (h : string -> M unit) : M unit := fun st =>
  match c st with
  | (st', RThrow m) => h m st'
  | r => r
  end.

(** [try ... finally { f }]: [f] runs unless the process is gone. *)
Definition finally (c : M unit) (f : M unit) : M unit := fun st =>
  match c st with
  | (st', RCrash m) => (st', RCrash m)
  | (st', r) =>
      match f st' with
      | (st'', ROk _) => (st'', r)
      | r' => r'
      end
  end.

(* ------------------------------------------------------------------ *)
(** ** The I/O primitives used by [processJob] *)

Section Primitives.
Variable env : Env.

(** [HSET key f1 v1 f2 v2 ...]: sets the given fields, keeps the others. *)
Definition apply_fields (r : gmap string string) (fs : list (string * string)) :=
  foldl (fun r fv => <[fv.1 := fv.2]> r) r fs.

Definition hset (p : HPoint) (key : string) (fs : list (string * string)) : M unit :=
  fun st =>
  match env_hset env p with
  | None =>
      let r := apply_fields (default ∅ (st_store st !! key)) fs in
      (emit (EvHset key fs) (set_store (<[key := r]> (st_store st)) st), ROk ())
  | Some m => (st, RThrow m)
  end.

(** [getVideoResolution(inputFilePath)] *)
Definition getVideoResolution : M (Z * Z) :=
  match env_probe env with
  | inl m => throw m
  | inr wh => mret wh
  end.

(** [Promise.all(dirs.map((d) => fs.mkdir(d, { recursive: true })))]:
    every [mkdir] runs; the first failure is the rejection reason. *)
Fixpoint mkdirs (ds : list string) (st : St) (err : option string) : St * option string :=
  match ds with
  | [] => (st, err)
  | d :: ds' =>
      match env_mkdir env d with
      | None => mkdirs ds' (emit (EvMkdir d) (set_fs ({[d]} ∪ st_dirs st) (st_files st) st)) err
      | Some m => mkdirs ds' st (match err with None => Some m | e => e end)
      end
  end.

Definition mkdir_all (ds : list string) : M unit := fun st =>
  match mkdirs ds st None with
  | (st', None) => (st', ROk ())
  | (st', Some m) => (st', RThrow m)
  end.

(** [runFFmpegWorker(...)] and [runUploadWorker(...)] start their threads;
    no handler is attached to either promise yet. *)
Definition launch_workers : M unit := fun st =>
  (set_flags true (st_ff_attached st) (st_up_attached st) st, ROk ()).

(** A worker promise that rejects while nobody awaits it. *)
Definition early_rejection : option string :=
  match (if env_ff_early env then env_ffmpeg env else None) with
  | Some m => Some m
  | None =>
      match env_up_when env, env_upload env with
      | UpDuringStatus, inl m => Some m
      | _, _ => None
      end
  end.

(** The "Processing & Uploading" write: the runner is suspended on Redis
    while both threads run. *)
Definition processing_write (key : string) : M unit := fun st =>
  let '(st', r) := hset HProcessing key [("status", "Processing & Uploading"); ("progress", "20")] st in
  match early_rejection with
  | Some m => (st', RCrash m)
  | None => (st', r)
  end.

(** [await ffmpegPromise] *)
Definition await_ffmpeg : M unit := fun st =>
  let st := set_flags (st_launched st) true (st_up_attached st) st in
  let during :=
    if env_ff_early env then None
    else match env_up_when env, env_upload env with
         | UpDuringTranscode, inl m => Some m
         | _, _ => None
         end in
  match during with
  | Some m => (st, RCrash m)
  | None =>
      match env_ffmpeg env with
      | None => (st, ROk ())
      | Some m => (st, RThrow m)
      end
  end.

(** [await uploadPromise] *)
Definition await_upload : M (list (Z * string)) := fun st =>
  let st := set_flags (st_launched st) (st_ff_attached st) true st in
  match env_upload env with
  | inl m => (st, RThrow m)
  | inr urls => (st, ROk urls)
  end.

(** [fs.writeFile(path, content)] *)
Definition writeFile (path content : string) : M unit := fun st =>
  match env_write env with
  | None => (emit (EvWriteFile path content) (set_fs (st_dirs st) (<[path := content]> (st_files st)) st), ROk ())
  | Some m => (st, RThrow m)
  end.

(** [uploadToCloudinary(filePath, folder)] *)
Definition uploadToCloudinary (filePath folder : string) : M string := fun st =>
  match env_cloud env with
  | inl m => (st, RThrow m)
  | inr url => (emit (EvUpload filePath folder) st, ROk url)
  end.

(** [p] itself or a path below it. *)
Definition under (p d : string) : bool :=
  String.eqb d p || String.prefix (p +:+ "/") d.

(** [fs.rm(p, { recursive: true, force: true }).catch(console.error)] *)
Definition rm_logged (p : string) : M unit := fun st =>
  match env_rm env p with
  | None =>
      (emit (EvRm p)
         (set_fs (filter (fun d => under p d = false) (st_dirs st))
                 (filter (fun kv : string * string => under p kv.1 = false) (st_files st)) st),
       ROk ())
  | Some m => (emit (EvLog m) st, ROk ())
  end.

End Primitives.

(* ------------------------------------------------------------------ *)
(** ** [processJob] *)

Definition status_key (id : string) : string := "video:" +:+ id.

Definition aspect_msg : string := "Aspect ratio should be landscape".
Definition too_low_msg (width height : Z) : string :=
  "Video resolution too low: " +:+ zstr width +:+ "x" +:+ zstr height.

(** The [finally] block. *)
Definition cleanup (env : Env) (job : Job) : M unit :=
  rm_logged env (uploadDir job) ;;
  rm_logged env (inputDir job) ;;
  rm_logged env ("/tmp/" +:+ videoId job).

(** The [try] block.  Every exception the model raises is an [Error], so
    the handler sees [err.message]. *)
Definition processJob_try (env : Env) (job : Job) : M unit :=
  let key := status_key (videoId job) in
  hset env HChecking key [("status", "checking video resolutions"); ("progress", "5")] ;;
  wh ← getVideoResolution env;
  let '(width, height) := wh in
  (if height >? width then throw aspect_msg else mret ()) ;;
  (if Z.min height width <? 360 then throw (too_low_msg width height) else mret ()) ;;
  let uploadSubDir := buildLadder (uploadDir job) height in
  mkdir_all env (map dir uploadSubDir) ;;
  launch_workers ;;
  processing_write env key ;;
  await_ffmpeg env ;;
  urls ← await_upload env;
  hset env HGenerating key [("status", "Generating master file"); ("progress", "20")] ;;
  let masterPlaylistPath := uploadDir job +:+ "/index.m3u8" in
  let masterPlaylistContent := generateMasterPlaylist uploadSubDir in
  writeFile env masterPlaylistPath (js_trim masterPlaylistContent) ;;
  hset env HUploadingMaster key [("status", "Uploading master file"); ("progress", "20")] ;;
  masterUrl ← uploadToCloudinary env masterPlaylistPath (videoId job);
  hset env HCompleted key
    [("status", "completed"); ("progress", "100"); ("masterUrl", masterUrl); ("urls", json_urls urls)].

(** The [catch] block. *)
Definition processJob_catch (env : Env) (job : Job) (m : string) : M unit :=
  hset env HError (status_key (videoId job)) [("status", "error"); ("error", m)].

Definition processJob (env : Env) (job : Job) : M unit :=
  finally (catch (processJob_try env job) (processJob_catch env job)) (cleanup env job).

(** Worker promises left without a handler when the runner gives up on
    them: they reject after [processJob] has settled. *)
Definition late_rejection (env : Env) (st : St) : option string :=
  if st_launched st then
    match (if st_ff_attached st then None else env_ffmpeg env) with
    | Some m => Some m
    | None =>
        if st_up_attached st then None
        else match env_upload env with inl m => Some m | inr _ => None end
    end
  else None.

(* ------------------------------------------------------------------ *)
(** ** Submission, the BullMQ queue and the queue-level observer *)

(** [app.ts] lines 190-218: the status record is created, then the job is
    added to the queue (the submission is only enqueued when both succeed). *)
Definition enqueue (opts : JobOpts) (jid : string) (job : Job) (createdAt : string) (st : St) : St :=
  let key := status_key (videoId job) in
  let fs := [("status", "queued"); ("progress", "0"); ("error", ""); ("createdAt", createdAt)] in
  let r := apply_fields (default ∅ (st_store st !! key)) fs in
  set_queue (<[jid := (job, opts)]> (st_queue st))
    (emit (EvHset key fs) (set_store (<[key := r]> (st_store st)) st)).

Inductive QEvent := QCompleted | QFailed (failedReason : string).

(** BullMQ settles the job with the processor's outcome, removing it when
    the matching [removeOn*] option is set, and publishes the event.  A
    crashed process settles nothing. *)
Definition finish (jid : string) (r : Res unit) (st : St) : St * option QEvent :=
  let drop (b : JobOpts -> bool) :=
    match st_queue st !! jid with
    | Some (_, o) => if b o then set_queue (delete jid (st_queue st)) st else st
    | None => st
    end in
  match r with
  | ROk _ => (drop removeOnComplete, Some QCompleted)
  | RThrow m => (drop removeOnFail, Some (QFailed m))
  | RCrash _ => (st, None)
  end.

(** [queueEvents.on("failed" | "completed", ...)]: [queue.getJob(jobId)]
    and, when the job and its [videoId] are there, an [hset]. *)
Definition on_event (env : Env) (jid : string) (e : QEvent) : M unit := fun st =>
  match st_queue st !! jid with
  | Some (job, _) =>
      if String.eqb (videoId job) "" then (st, ROk ())
      else
        match e with
        | QFailed reason =>
            hset env HObsFailed (status_key (videoId job)) [("status", "error"); ("error", reason)] st
        | QCompleted =>
            hset env HObsCompleted (status_key (videoId job)) [("status", "completed"); ("progress", "100")] st
        end
  | None => (st, ROk ())
  end.

Record Outcome := {
  o_st : St;
  o_res : Res unit;           (** how [processJob]'s promise ended *)
  o_late : option string      (** unhandled rejection after it ended *)
}.

(** A state with the given store, file system and queue, before the job. *)
Definition fresh (st : St) : St :=
  {| st_store := st_store st; st_dirs := st_dirs st; st_files := st_files st;
     st_queue := st_queue st; st_trace := []; st_launched := false;
     st_ff_attached := false; st_up_attached := false |}.

(** One job, end to end: submission, one run of [processJob] by the
    worker, BullMQ's settlement and the observer's reaction. *)
Definition runJobWith (opts : JobOpts) (env : Env) (jid : string) (job : Job)
    (createdAt : string) (st0 : St) : Outcome :=
  let st1 := enqueue opts jid job createdAt (fresh st0) in
  let '(st2, r) := processJob env job st1 in
  let late := match r with RCrash _ => None | _ => late_rejection env st2 end in
  let '(st3, ev) := finish jid r st2 in
  let st4 := match ev with Some e => (on_event env jid e st3).1 | None => st3 end in
  {| o_st := st4; o_res := r; o_late := late |}.

Definition runJob := runJobWith app_opts.

(* ------------------------------------------------------------------ *)
(** ** Observations *)

Fixpoint assoc (f : string) (fs : list (string * string)) : option string :=
  match fs with
  | [] => None
  | (k, v) :: fs' => if String.eqb k f then Some v else assoc f fs'
  end.

Definition hset_evs (tr : list Ev) : list (string * list (string * string)) :=
  omap (fun e => match e with EvHset k fs => Some (k, fs) | _ => None end) tr.

(** The field lists written to [key], in order. *)
Definition writes_to (key : string) (tr : list Ev) : list (list (string * string)) :=
  omap (fun kfs : string * list (string * string) =>
          if String.eqb kfs.1 key then Some kfs.2 else None) (hset_evs tr).

(** The [status] values written to [key], in order. *)
Definition status_seq (key : string) (tr : list Ev) : list string :=
  omap (assoc "status") (writes_to key tr).

Definition pipeline_states : list string :=
  ["queued"; "checking video resolutions"; "Processing & Uploading";
   "Generating master file"; "Uploading master file"; "completed"].

(** The Status Record after each write to [key], starting from none. *)
Fixpoint records_from (r : gmap string string) (ws : list (list (string * string))) :
    list (gmap string string) :=
  match ws with
  | [] => []
  | fs :: ws' => let r' := apply_fields r fs in r' :: records_from r' ws'
  end.

Definition record_of (key : string) (st : St) : gmap string string :=
  default ∅ (st_store st !! key).

(* ------------------------------------------------------------------ *)
(** ** Helpers for the statements and sample inputs *)

Fixpoint has_nl (s : string) : bool :=
  match s with
  | EmptyString => false
  | String c s' => Ascii.eqb c nl || has_nl s'
  end.

(** The two lines of one entry. *)
Definition stream_inf_line (i : nat) (r : Rung) : string :=
  "#EXT-X-STREAM-INF:BANDWIDTH=" +:+ zstr ((Z.of_nat i + 1) * 250000)
  +:+ ",RESOLUTION=" +:+ zstr (width r) +:+ "x" +:+ zstr (height r).
Definition uri_line (r : Rung) : string := zstr (height r) +:+ "p/index.m3u8".

(** A step that writes nothing to Redis and leaves the queue alone. *)
Definition quiet_step (s0 s : St) : Prop :=
  hset_evs (st_trace s) = hset_evs (st_trace s0) /\ st_store s = st_store s0 /\ st_queue s = st_queue s0.

Definition apply_write (m : gmap string (gmap string string)) (kfs : string * list (string * string)) :=
  <[kfs.1 := apply_fields (default ∅ (m !! kfs.1)) kfs.2]> m.

(** From [s0] to [s] the Redis writes [ws] happened, in this order, and
    nothing else touched the store or the queue. *)
Definition step_writes (s0 s : St) (ws : list (string * list (string * string))) : Prop :=
  hset_evs (st_trace s) = hset_evs (st_trace s0) ++ ws /\
  st_store s = foldl apply_write (st_store s0) ws /\ st_queue s = st_queue s0.

(** The five [hset] field lists of the [try] block, in order. *)
Definition milestone_writes (masterUrl urls : string) : list (list (string * string)) :=
  [[("status", "checking video resolutions"); ("progress", "5")];
   [("status", "Processing & Uploading"); ("progress", "20")];
   [("status", "Generating master file"); ("progress", "20")];
   [("status", "Uploading master file"); ("progress", "20")];
   [("status", "completed"); ("progress", "100"); ("masterUrl", masterUrl); ("urls", urls)]].

(** The [masterUrl] and [JSON.stringify(urls)] a successful run writes. *)
Definition env_master_url (env : Env) : string :=
  match env_cloud env with inr u => u | inl _ => "" end.
Definition env_urls_json (env : Env) : string :=
  match env_upload env with inr us => json_urls us | inl _ => "" end.

Definition error_fields (m : string) : list (string * string) := [("status", "error"); ("error", m)].

Definition queued_fields (createdAt : string) : list (string * string) :=
  [("status", "queued"); ("progress", "0"); ("error", ""); ("createdAt", createdAt)].

(** How a run of [processJob] ended, as far as Redis is concerned. *)
Definition run_shape (n : nat) (e : list (list (string * string))) (r : Res unit) : Prop :=
  (n = 5%nat /\ e = [] /\ r = ROk ()) \/
  ((n < 5)%nat /\ ((exists m, e = [error_fields m] /\ r = ROk ()) \/
                   (e = [] /\ exists m, r = RThrow m \/ r = RCrash m))).

Definition url_iff (r : gmap string string) : Prop :=
  (is_Some (r !! "masterUrl") <-> r !! "status" = Some "completed") /\
  (is_Some (r !! "urls") <-> r !! "status" = Some "completed").

Definition write_url_iff (fs : list (string * string)) : Prop :=
  (is_Some (assoc "masterUrl" fs) <-> assoc "status" fs = Some "completed") /\
  (is_Some (assoc "urls" fs) <-> assoc "status" fs = Some "completed").

Definition optional_rungs (d : string) : list Rung :=
  [mkRung (d +:+ "/480p") 480 854; mkRung (d +:+ "/720p") 720 1280;
   mkRung (d +:+ "/1080p") 1080 1920; mkRung (d +:+ "/1620p") 1620 2880;
   mkRung (d +:+ "/2430p") 2430 4320].

(** A job as [app.ts] enqueues it, for video id [v1]. *)
Definition job_v1 : Job :=
  {| videoId := "v1"; inputFilePath := "/tmp/v1/in/video.mp4";
     uploadDir := "/tmp/v1/out"; inputDir := "/tmp/v1/in" |}.

(** The machine after the upload of [job_v1]'s file, before the job. *)
Definition st_v1 : St :=
  {| st_store := ∅; st_dirs := {["/tmp"; "/tmp/v1"; "/tmp/v1/in"]};
     st_files := {["/tmp/v1/in/video.mp4" := "<mp4>"]}; st_queue := ∅; st_trace := [];
     st_launched := false; st_ff_attached := false; st_up_attached := false |}.

(** Everything succeeds: a 1920x1080 source. *)
Definition env_ok : Env :=
  {| env_hset := fun _ => None; env_probe := inr (1920, 1080); env_mkdir := fun _ => None;
     env_ffmpeg := None; env_ff_early := false;
     env_upload := inr [(360, "https://res.cloudinary.com/x/raw/upload/v1/360p/index.m3u8")];
     env_up_when := UpAfterTranscode; env_write := None;
     env_cloud := inr "https://res.cloudinary.com/x/raw/upload/v1/index.m3u8";
     env_rm := fun _ => None |}.

(** A 1920x1080 source whose upload worker exits with code 1 while the
    FFmpeg worker is still transcoding. *)
Definition env_upload_fails : Env :=
  {| env_hset := fun _ => None; env_probe := inr (1920, 1080); env_mkdir := fun _ => None;
     env_ffmpeg := None; env_ff_early := false;
     env_upload := inl "Upload worker exited with code 1";
     env_up_when := UpDuringTranscode; env_write := None;
     env_cloud := inr "https://res.cloudinary.com/x/raw/upload/v1/index.m3u8";
     env_rm := fun _ => None |}.

Definition is_rm (e : Ev) : bool := match e with EvRm _ => true | _ => false end.

Definition reject_msg (width height : Z) : string :=
  if height >? width then aspect_msg else too_low_msg width height.

Definition checking_fields : list (string * string) :=
  [("status", "checking video resolutions"); ("progress", "5")].

Definition is_mkdir (e : Ev) : bool := match e with EvMkdir _ => true | _ => false end.

(** [env_ok] with another probed [width], [height]. *)
Definition env_probed (width height : Z) : Env :=
  {| env_hset := env_hset env_ok; env_probe := inr (width, height); env_mkdir := env_mkdir env_ok;
     env_ffmpeg := env_ffmpeg env_ok; env_ff_early := env_ff_early env_ok;
     env_upload := env_upload env_ok; env_up_when := env_up_when env_ok;
     env_write := env_write env_ok; env_cloud := env_cloud env_ok; env_rm := env_rm env_ok |}.

(** [env_ok] where creating the rung directories is refused. *)
Definition env_mkdir_fails : Env :=
  {| env_hset := env_hset env_ok; env_probe := env_probe env_ok;
     env_mkdir := fun d => Some ("EACCES: permission denied, mkdir '" +:+ d +:+ "'");
     env_ffmpeg := env_ffmpeg env_ok; env_ff_early := env_ff_early env_ok;
     env_upload := env_upload env_ok; env_up_when := env_up_when env_ok;
     env_write := env_write env_ok; env_cloud := env_cloud env_ok; env_rm := env_rm env_ok |}.


(* ================================================================== *)
(** * The HTTP server ([app.ts]) and the library code it relies on *)

(** [s.includes(c)] for a one-character [c]. *)
Fixpoint has_char (c : ascii) (s : string) : bool :=
  match s with
  | EmptyString => false
  | String d s' => Ascii.eqb d c || has_char c s'
  end.

(** [s.split(sep)] for a one-character separator. *)
Fixpoint split_on (sep : ascii) (s : string) : list string :=
  match s with
  | EmptyString => [EmptyString]
  | String c s' =>
      if Ascii.eqb c sep then EmptyString :: split_on sep s'
      else match split_on sep s' with
           | x :: xs => String c x :: xs
           | [] => [String c EmptyString]
           end
  end.

(** [s.slice(a, b)] for [0 <= a <= b <= s.length]. *)
Definition js_slice (s : string) (a b : Z) : string :=
  String.substring (Z.to_nat a) (Z.to_nat (b - a)) s.

Definition slen (s : string) : Z := Z.of_nat (String.length s).

Definition slash : ascii := "/".

Definition starts_slash (p : string) : bool :=
  match p with String c _ => Ascii.eqb c slash | EmptyString => false end.

Definition ends_slash (p : string) : bool :=
  match String.get (pred (String.length p)) p with
  | Some c => Ascii.eqb c slash
  | None => false
  end.

(** One path segment in [normalizeString]: [""] and ["."] are dropped,
    [".."] removes the previous segment (or is kept for a relative path
    that already climbs), anything else is appended.  The stack holds the
    kept segments, last first. *)
Definition resolve_seg (abs : bool) (stk : list string) (seg : string) : list string :=
  if String.eqb seg "" || String.eqb seg "." then stk
  else if String.eqb seg ".." then
    match stk with
    | top :: rest => if String.eqb top ".." then ".." :: stk else rest
    | [] => if abs then [] else [".."]
    end
  else seg :: stk.

(** Node's [path.posix.normalize]. *)
Definition normalize (p : string) : string :=
  if String.eqb p "" then "." else
  let abs := starts_slash p in
  let trailing := ends_slash p in
  let body := String.concat "/" (rev (foldl (resolve_seg abs) [] (split_on slash p))) in
  if String.eqb body "" then (if abs then "/" else if trailing then "./" else ".")
  else (if abs then "/" else "") +:+ body +:+ (if trailing then "/" else "").

(** Node's [path.posix.join]: the non-empty arguments joined by ["/"],
    then normalised; ["."] when there is none. *)
Definition path_join (args : list string) : string :=
  match List.filter (fun a => negb (String.eqb a "")) args with
  | [] => "."
  | ne => normalize (String.concat "/" ne)
  end.

(** The loop of Node's [path.posix.extname], from the last character to
    the first; [rcs] holds the characters at indices [i], [i-1], ..., [0].
    Returns [startDot], [startPart], [end] and [preDotState]. *)
Fixpoint ext_scan (rcs : list ascii) (i startDot startPart end_ : Z) (matchedSlash : bool)
    (pre : Z) : Z * Z * Z * Z :=
  match rcs with
  | [] => (startDot, startPart, end_, pre)
  | c :: rcs' =>
      if Ascii.eqb c slash then
        if matchedSlash then ext_scan rcs' (i - 1) startDot startPart end_ matchedSlash pre
        else (startDot, i + 1, end_, pre)
      else
        let matchedSlash' := if end_ =? -1 then false else matchedSlash in
        let end' := if end_ =? -1 then i + 1 else end_ in
        let '(startDot', pre') :=
          if Ascii.eqb c "." then
            if startDot =? -1 then (i, pre) else if pre =? 1 then (startDot, pre) else (startDot, 1)
          else if startDot =? -1 then (startDot, pre) else (startDot, -1) in
        ext_scan rcs' (i - 1) startDot' startPart end' matchedSlash' pre'
  end.

(** Node's [path.posix.extname]. *)
Definition extname (p : string) : string :=
  let '(startDot, startPart, end_, pre) :=
    ext_scan (rev (String.list_ascii_of_string p)) (slen p - 1) (-1) 0 (-1) true 0 in
  if (startDot =? -1) || (end_ =? -1) || (pre =? 0)
     || ((pre =? 1) && (startDot =? end_ - 1) && (startDot =? startPart + 1))
  then ""
  else js_slice p startDot end_.

(** The loop of [path.posix.basename(path)] without a suffix.  Returns
    [start] and [end]. *)
Fixpoint base_scan0 (rcs : list ascii) (i start end_ : Z) (matchedSlash : bool) : Z * Z :=
  match rcs with
  | [] => (start, end_)
  | c :: rcs' =>
      if Ascii.eqb c slash then
        if matchedSlash then base_scan0 rcs' (i - 1) start end_ matchedSlash
        else (i + 1, end_)
      else if end_ =? -1 then base_scan0 rcs' (i - 1) start (i + 1) false
      else base_scan0 rcs' (i - 1) start end_ matchedSlash
  end.

Definition char_at (s : string) (k : Z) : option ascii := String.get (Z.to_nat k) s.

(** The loop of [path.posix.basename(path, suffix)] for a non-empty
    [suffix]: it matches [suffix] backwards while it scans.  Returns
    [start], [end] and [firstNonSlashEnd]. *)
Fixpoint base_scan (sfx : string) (rcs : list ascii) (i start end_ : Z) (matchedSlash : bool)
    (extIdx firstNonSlashEnd : Z) : Z * Z * Z :=
  match rcs with
  | [] => (start, end_, firstNonSlashEnd)
  | c :: rcs' =>
      if Ascii.eqb c slash then
        if matchedSlash then base_scan sfx rcs' (i - 1) start end_ matchedSlash extIdx firstNonSlashEnd
        else (i + 1, end_, firstNonSlashEnd)
      else
        let matchedSlash' := if firstNonSlashEnd =? -1 then false else matchedSlash in
        let fnse := if firstNonSlashEnd =? -1 then i + 1 else firstNonSlashEnd in
        let '(extIdx', end') :=
          if 0 <=? extIdx then
            if bool_decide (Some c = char_at sfx extIdx) then
              (extIdx - 1, if extIdx - 1 =? -1 then i else end_)
            else (-1, fnse)
          else (extIdx, end_) in
        base_scan sfx rcs' (i - 1) start end' matchedSlash' extIdx' fnse
  end.

(** Node's [path.posix.basename(path, suffix)]. *)
Definition basename (p sfx : string) : string :=
  let n := slen p in
  if (0 <? slen sfx) && (slen sfx <=? n) then
    if String.eqb sfx p then ""
    else
      let '(start, end_, fnse) :=
        base_scan sfx (rev (String.list_ascii_of_string p)) (n - 1) 0 (-1) true (slen sfx - 1) (-1) in
      let end'' := if start =? end_ then fnse else if end_ =? -1 then n else end_ in
      js_slice p start end''
  else
    let '(start, end_) := base_scan0 (rev (String.list_ascii_of_string p)) (n - 1) 0 (-1) true in
    if end_ =? -1 then "" else js_slice p start end_.

(** [String.prototype.toLowerCase] on code units up to U+00FF: the Latin-1
    capitals A-Z, U+00C0-U+00D6 and U+00D8-U+00DE move up by 32. *)
Definition lower_char (c : ascii) : ascii :=
  let n := Ascii.nat_of_ascii c in
  if ((65 <=? n)%nat && (n <=? 90)%nat) || ((192 <=? n)%nat && (n <=? 222)%nat && negb (n =? 215)%nat)
  then Ascii.ascii_of_nat (n + 32) else c.

Fixpoint to_lower (s : string) : string :=
  match s with
  | EmptyString => EmptyString
  | String c s' => String (lower_char c) (to_lower s')
  end.

(** [new Date().toISOString().replace(/[:.-]/g, "")] *)
Fixpoint strip_date (s : string) : string :=
  match s with
  | EmptyString => EmptyString
  | String c s' =>
      if Ascii.eqb c ":" || Ascii.eqb c "." || Ascii.eqb c "-" then strip_date s'
      else String c (strip_date s')
  end.

Definition plain (s : string) : bool :=
  negb (String.eqb s "") && negb (has_char slash s) && negb (String.eqb s ".") && negb (String.eqb s "..").

(** JavaScript values as [res.json] serialises them and [JSON.parse]
    builds them.  Strings are sequences of UTF-16 code units; a number is
    the decimal [m * 10^e] its literal denotes ([JSON.parse] rounds it to
    the nearest double; the two agree on the integers below [2^53]). *)
Local Set Warnings "-register-all".
Inductive JV :=
  | JNull
  | JBool (b : bool)
  | JNum (m e : Z)
  | JStr (s : list Z)
  | JArr (l : list JV)
  | JObj (l : list (list Z * JV)).

(** The code units of a string of the model. *)
Definition units (s : string) : list Z :=
  map (fun c => Z.of_nat (Ascii.nat_of_ascii c)) (String.list_ascii_of_string s).

Definition jstr (s : string) : JV := JStr (units s).

(** An HTTP response: the status code and the fields of the JSON body. *)
Inductive Reply :=
  | Hang                                    (** no response is ever sent *)
  | Respond (code : Z) (body : list (string * JV)).

Definition fail_reply (code : Z) (msg : string) : Reply :=
  Respond code [("success", JBool false); ("error", jstr msg)].

(** busboy's [basename] of a [filename] parameter ([preservePath] is
    false): what follows the last ['/'] or ['\'], and [""] for ["."] and
    [".."]. *)
Definition bb_sep (c : ascii) : bool :=
  Ascii.eqb c "/" || (Ascii.nat_of_ascii c =? 92)%nat.

Fixpoint has_sep (s : string) : bool :=
  match s with
  | EmptyString => false
  | String c s' => bb_sep c || has_sep s'
  end.

Fixpoint last_part (s : string) : string :=
  match s with
  | EmptyString => EmptyString
  | String c s' => if has_sep s' then last_part s' else if bb_sep c then s' else s
  end.

Definition bb_basename (s : string) : string :=
  let p := last_part s in
  if String.eqb p ".." || String.eqb p "." then "" else p.

(** What busboy emits while it parses the request body.  [BFile] is a
    file part: the field name, the [filename] parameter (absent or raw),
    the MIME type and the bytes of the part.  The stream events concern
    the streams of an accepted file part. *)
Inductive BEvent :=
  | BFile (name : string) (filename : option string) (mimeType : string) (data : string)
  | BWriteClose
  | BWriteError (msg : string)
  | BReadError (msg : string)
  | BError (msg : string)
  | BFinish.

(** The world as the [/process] handler sees it. *)
Record PostEnv := {
  pe_ready : bool;                      (** [redis.status === "ready"] *)
  pe_connect : option string;           (** [redis.connect()] rejects with *)
  pe_uuid : nat -> string;              (** the k-th [randomUUID()] of the request *)
  pe_iso_id : string;                   (** [toISOString()] on line 31 *)
  pe_iso_created : string;              (** [toISOString()] on line 195 *)
  pe_mkdir : string -> option string;   (** [fs.mkdir(d, { recursive: true })] rejects with *)
  pe_events : list BEvent;
  pe_unlink : string -> option string;  (** [fs.unlink(p)] rejects with *)
  pe_hset : option string;              (** [redis.hset] rejects with *)
  pe_add : option string;               (** [videoQueue.add] rejects with *)
  pe_jid : string                       (** the id BullMQ gives the job *)
}.

Definition ALLOWED_VIDEO_TYPES : list string := ["video/mp4"; "video/mkv"; "video/webm"; "video/avi"].
Definition allowedExtensions : list string := [".mp4"; ".mkv"; ".webm"; ".avi"].

(** [arr.includes(x)] *)
Definition includes (l : list string) (x : string) : bool := existsb (String.eqb x) l.

(** The variables of the upload promise: [done], [fileSavedPath],
    [originalFilename]; the number of accepted file parts (whose stream
    handlers are attached); the promise's state ([Some None] resolved,
    [Some (Some m)] rejected with [m]); the [randomUUID()] calls made. *)
Record Up := {
  up_done : bool;
  up_saved : option string;
  up_orig : option string;
  up_streams : nat;
  up_res : option (option string);
  up_uuids : nat
}.

Definition up_init : Up :=
  {| up_done := false; up_saved := None; up_orig := None; up_streams := 0;
     up_res := None; up_uuids := 1 |}.

(** [done = true; reject(new Error(m))] or [done = true; resolve()]. *)
Definition settle (u : Up) (r : option string) : Up :=
  {| up_done := true; up_saved := up_saved u; up_orig := up_orig u; up_streams := up_streams u;
     up_res := match up_res u with None => Some r | s => s end; up_uuids := up_uuids u |}.

Definition set_orig (u : Up) (f : string) : Up :=
  {| up_done := up_done u; up_saved := up_saved u; up_orig := Some f; up_streams := up_streams u;
     up_res := up_res u; up_uuids := up_uuids u |}.

(** [fileSavedPath = p]; the stream handlers are attached; one more
    [randomUUID()] was used. *)
Definition accept (u : Up) (p : string) : Up :=
  {| up_done := up_done u; up_saved := Some p; up_orig := up_orig u; up_streams := S (up_streams u);
     up_res := up_res u; up_uuids := S (up_uuids u) |}.

Definition falsy_path (o : option string) : bool :=
  match o with Some p => String.eqb p "" | None => true end.

(** [`${path.basename(filename, fileExt)}-${randomUUID()}${fileExt}`] *)
Definition unique_filename (filename uuid : string) : string :=
  let fileExt := to_lower (extname filename) in
  basename filename fileExt +:+ "-" +:+ uuid +:+ fileExt.

(** The handlers of lines 64-166 reacting to one busboy event. *)
Definition bb_step (pe : PostEnv) (inputDir : string) (us : Up * St) (e : BEvent) : Up * St :=
  let '(u, st) := us in
  match e with
  | BFile name raw mimeType data =>
      if up_done u then (u, st)
      else if negb (String.eqb name "file") then (u, st)
      else
        match option_map bb_basename raw with
        | None => (settle u (Some "Uploaded file missing or invalid filename."), st)
        | Some filename =>
            if String.eqb filename "" then
              (settle u (Some "Uploaded file missing or invalid filename."), st)
            else
              let u := set_orig u filename in
              let fileExt := to_lower (extname filename) in
              if negb (includes ALLOWED_VIDEO_TYPES mimeType) && negb (includes allowedExtensions fileExt)
              then (settle u (Some "Invalid file type. Allowed: mp4, mkv, webm, avi."), st)
              else
                let p := path_join [inputDir; unique_filename filename (pe_uuid pe (up_uuids u))] in
                (accept u p, set_fs (st_dirs st) (<[p := data]> (st_files st)) st)
        end
  | BWriteError m | BReadError m =>
      if (up_streams u =? 0)%nat || up_done u then (u, st) else (settle u (Some m), st)
  | BWriteClose =>
      if (up_streams u =? 0)%nat || up_done u then (u, st) else (settle u None, st)
  | BError m => if up_done u then (u, st) else (settle u (Some m), st)
  | BFinish =>
      if negb (up_done u) && falsy_path (up_saved u)
      then (settle u (Some "No file uploaded with field name 'file'."), st)
      else (u, st)
  end.

Definition upload (pe : PostEnv) (inputDir : string) (st : St) : Up * St :=
  foldl (bb_step pe inputDir) (up_init, st) (pe_events pe).

(** The directories [fs.mkdir(p, { recursive: true })] makes exist. *)
Definition ancestors (p : string) : list string :=
  let segs := List.filter (fun s => negb (String.eqb s "")) (split_on slash p) in
  map (fun k => "/" +:+ String.concat "/" (take k segs)) (seq 1 (length segs)).

Definition mkdir_p (p : string) (st : St) : St :=
  emit (EvMkdir p) (set_fs (list_to_set (ancestors p) ∪ st_dirs st) (st_files st) st).

(** [fs.unlink(p)] whose failure is ignored. *)
Definition unlink_quiet (pe : PostEnv) (p : string) (st : St) : St :=
  match pe_unlink pe p with
  | None => set_fs (st_dirs st) (delete p (st_files st)) st
  | Some _ => st
  end.

Definition post_video_id (pe : PostEnv) : string :=
  pe_uuid pe 0 +:+ "_" +:+ strip_date (pe_iso_id pe).
Definition post_upload_dir (pe : PostEnv) : string := path_join ["/tmp"; post_video_id pe; "out"].
Definition post_input_dir (pe : PostEnv) : string := path_join ["/tmp"; post_video_id pe; "in"].

(** [app.post("/process", ...)] *)
Definition post_process (pe : PostEnv) (st : St) : St * Reply :=
  if negb (pe_ready pe) && bool_decide (is_Some (pe_connect pe)) then
    (st, fail_reply 500 "Redis connection failed")
  else
  let videoId := post_video_id pe in
  let uploadDir := post_upload_dir pe in
  let inputDir := post_input_dir pe in
  match pe_mkdir pe uploadDir with
  | Some _ => (st, fail_reply 500 "Failed to prepare upload directories")
  | None =>
  let st := mkdir_p uploadDir st in
  match pe_mkdir pe inputDir with
  | Some _ => (st, fail_reply 500 "Failed to prepare upload directories")
  | None =>
  let st := mkdir_p inputDir st in
  let '(u, st) := upload pe inputDir st in
  match up_res u with
  | None => (st, Hang)
  | Some (Some m) =>
      let st := match up_saved u with
                | Some p => if String.eqb p "" then st else unlink_quiet pe p st
                | None => st
                end in
      (st, fail_reply 400 m)
  | Some None =>
      match up_saved u, up_orig u with
      | Some p, Some f =>
          if String.eqb p "" || String.eqb f "" then (st, fail_reply 400 "No valid file was saved")
          else
          match pe_hset pe with
          | Some _ => (unlink_quiet pe p st, fail_reply 500 "Failed to set video status")
          | None =>
              let key := status_key videoId in
              let fs := [("status", "queued"); ("progress", "0"); ("error", "");
                         ("createdAt", pe_iso_created pe)] in
              let st := emit (EvHset key fs)
                          (set_store (<[key := apply_fields (default ∅ (st_store st !! key)) fs]>
                                        (st_store st)) st) in
              match pe_add pe with
              | Some _ => (unlink_quiet pe p st, fail_reply 500 "Failed to enqueue job")
              | None =>
                  let job := {| videoId := videoId; inputFilePath := p;
                                uploadDir := uploadDir; inputDir := inputDir |} in
                  (set_queue (<[pe_jid pe := (job, app_opts)]> (st_queue st)) st,
                   Respond 200 [("success", JBool true); ("videoId", jstr videoId);
                                ("message", jstr "Video queued for processing.")])
              end
          end
      | _, _ => (st, fail_reply 400 "No valid file was saved")
      end
  end
  end
  end.

(** What the handlers keep: the saved path is a file under [dir], the
    original name is nonempty, and the promise resolves only after a
    file part was accepted; the handlers touch the files only. *)
Definition up_inv (dir : string) (st0 : St) (us : Up * St) : Prop :=
  let '(u, st) := us in
  (forall p, up_saved u = Some p ->
     (exists name, plain name = true /\ p = dir +:+ "/" +:+ name) /\ is_Some (st_files st !! p)) /\
  (forall f, up_orig u = Some f -> f <> "") /\
  ((up_streams u <> 0)%nat -> is_Some (up_saved u) /\ is_Some (up_orig u)) /\
  (up_res u = Some None -> is_Some (up_saved u) /\ is_Some (up_orig u)) /\
  st_dirs st = st_dirs st0 /\ st_store st = st_store st0 /\ st_queue st = st_queue st0 /\
  st_trace st = st_trace st0 /\
  (forall q, is_Some (st_files st0 !! q) -> is_Some (st_files st !! q)).

(** The events of a body with no file part named ["file"] and no parser
    error. *)
Definition no_file_part (e : BEvent) : Prop :=
  match e with
  | BFile name _ _ _ => name <> "file"
  | BError _ => False
  | _ => True
  end.

(** ** [JSON.parse] *)

(** JSON white space: tab, line feed, carriage return, space. *)
Definition is_ws (c : ascii) : bool :=
  let n := Ascii.nat_of_ascii c in (n =? 9)%nat || (n =? 10)%nat || (n =? 13)%nat || (n =? 32)%nat.

Fixpoint skip_ws (s : list ascii) : list ascii :=
  match s with
  | c :: r => if is_ws c then skip_ws r else s
  | [] => []
  end.

Definition digit_val (c : ascii) : option Z :=
  let n := Z.of_nat (Ascii.nat_of_ascii c) in
  if (48 <=? n) && (n <=? 57) then Some (n - 48) else None.

Definition hex_val (c : ascii) : option Z :=
  let n := Z.of_nat (Ascii.nat_of_ascii c) in
  if (48 <=? n) && (n <=? 57) then Some (n - 48)
  else if (97 <=? n) && (n <=? 102) then Some (n - 87)
  else if (65 <=? n) && (n <=? 70) then Some (n - 55)
  else None.

(** The code unit a one-character escape stands for: quote, backslash,
    slash, b, f, n, r, t. *)
Definition esc_unit (c : ascii) : option Z :=
  let n := Ascii.nat_of_ascii c in
  if (n =? 34)%nat then Some 34
  else if (n =? 92)%nat then Some 92
  else if (n =? 47)%nat then Some 47
  else if (n =? 98)%nat then Some 8
  else if (n =? 102)%nat then Some 12
  else if (n =? 110)%nat then Some 10
  else if (n =? 114)%nat then Some 13
  else if (n =? 116)%nat then Some 9
  else None.

(** The rest of a string literal after its opening quote: its code units
    and what follows the closing quote. *)
Fixpoint p_str (s : list ascii) : option (list Z * list ascii) :=
  match s with
  | [] => None
  | c :: r =>
      let n := Ascii.nat_of_ascii c in
      if (n =? 34)%nat then Some ([], r)
      else if (n =? 92)%nat then
        match r with
        | e :: r' =>
            match esc_unit e with
            | Some u => option_map (fun p => (u :: p.1, p.2)) (p_str r')
            | None =>
                if (Ascii.nat_of_ascii e =? 117)%nat then
                  match r' with
                  | h1 :: h2 :: h3 :: h4 :: r'' =>
                      match hex_val h1, hex_val h2, hex_val h3, hex_val h4 with
                      | Some a, Some b, Some c', Some d =>
                          option_map (fun p => (((a * 16 + b) * 16 + c') * 16 + d :: p.1, p.2)) (p_str r'')
                      | _, _, _, _ => None
                      end
                  | _ => None
                  end
                else None
            end
        | [] => None
        end
      else if (n <? 32)%nat then None
      else option_map (fun p => (Z.of_nat n :: p.1, p.2)) (p_str r)
  end.

Fixpoint span_digits (s : list ascii) : list Z * list ascii :=
  match s with
  | c :: r =>
      match digit_val c with
      | Some d => let '(ds, r') := span_digits r in (d :: ds, r')
      | None => ([], s)
      end
  | [] => ([], [])
  end.

Definition digits_Z (ds : list Z) : Z := fold_left (fun acc d => acc * 10 + d) ds 0.

Fixpoint strip_zeros (k : nat) (m e : Z) : Z * Z :=
  match k with
  | O => (m, e)
  | S k => if m mod 10 =? 0 then strip_zeros k (m / 10) (e + 1) else (m, e)
  end.

(** The number [m * 10^e], with [m] not a multiple of 10 unless it is 0
    ([-0] is written [0], as [JSON.stringify] writes it). *)
Definition jnum (m e : Z) : JV :=
  if m =? 0 then JNum 0 0
  else let '(m', e') := strip_zeros (S (Z.to_nat (Z.log2 (Z.abs m)))) m e in JNum m' e'.

(** A number literal: [-? (0 | [1-9][0-9]* ) (. [0-9]+)? ([eE] [+-]? [0-9]+)?]. *)
Definition p_number (s : list ascii) : option (JV * list ascii) :=
  let '(neg, s1) := match s with
                    | c :: r => if (Ascii.nat_of_ascii c =? 45)%nat then (true, r) else (false, s)
                    | [] => (false, s)
                    end in
  match match s1 with
        | c :: r =>
            match digit_val c with
            | Some 0 => Some ([0], r)
            | Some d => let '(ds, r') := span_digits r in Some (d :: ds, r')
            | None => None
            end
        | [] => None
        end with
  | None => None
  | Some (ip, r1) =>
  match match r1 with
        | c :: r =>
            if (Ascii.nat_of_ascii c =? 46)%nat then
              match span_digits r with
              | ([], _) => None
              | (fs, r2) => Some (fs, r2)
              end
            else Some ([], r1)
        | [] => Some ([], [])
        end with
  | None => None
  | Some (fp, r2) =>
  match match r2 with
        | c :: r =>
            if (Ascii.nat_of_ascii c =? 101)%nat || (Ascii.nat_of_ascii c =? 69)%nat then
              let '(sg, r3) := match r with
                               | c' :: r' =>
                                   if (Ascii.nat_of_ascii c' =? 43)%nat then (1, r')
                                   else if (Ascii.nat_of_ascii c' =? 45)%nat then (-1, r')
                                   else (1, r)
                               | [] => (1, [])
                               end in
              match span_digits r3 with
              | ([], _) => None
              | (es, r4) => Some (sg * digits_Z es, r4)
              end
            else Some (0, r2)
        | [] => Some (0, [])
        end with
  | None => None
  | Some (ex, r3) =>
      let m := digits_Z (ip ++ fp) in
      Some (jnum (if neg then - m else m) (ex - Z.of_nat (length fp)), r3)
  end
  end
  end.

(** Setting a property of the object being built: a repeated key keeps
    its place and takes the last value. *)
Definition obj_set (l : list (list Z * JV)) (k : list Z) (v : JV) : list (list Z * JV) :=
  if existsb (fun kv => bool_decide (kv.1 = k)) l
  then map (fun kv => if bool_decide (kv.1 = k) then (k, v) else kv) l
  else l ++ [(k, v)].

(** A key that is an array index ([0] to [2^32 - 2] in canonical form). *)
Definition array_index (k : list Z) : option Z :=
  match k with
  | [] => None
  | [48] => Some 0
  | 48 :: _ => None
  | _ => if forallb (fun u => (48 <=? u) && (u <=? 57)) k
         then let n := digits_Z (map (fun u => u - 48) k) in
              if n <? 4294967295 then Some n else None
         else None
  end.

Fixpoint ins_index {A} (x : Z * A) (l : list (Z * A)) : list (Z * A) :=
  match l with
  | [] => [x]
  | y :: r => if x.1 <? y.1 then x :: l else y :: ins_index x r
  end.

(** The order of an object's own keys: array indices ascending, then the
    other keys in creation order. *)
Definition own_keys_order (l : list (list Z * JV)) : list (list Z * JV) :=
  map snd (fold_right ins_index [] (omap (fun kv => (fun n => (n, kv)) <$> array_index kv.1) l))
  ++ List.filter (fun kv => match array_index kv.1 with Some _ => false | None => true end) l.

Inductive Parse := POk (v : JV) (rest : list ascii) | PErr | PFuel.

Fixpoint p_value (f : nat) (s : list ascii) : Parse :=
  match f with
  | O => PFuel
  | S f =>
  match skip_ws s with
  | [] => PErr
  | c :: r =>
      let n := Ascii.nat_of_ascii c in
      if (n =? 110)%nat then
        match r with "u"%char :: "l"%char :: "l"%char :: r' => POk JNull r' | _ => PErr end
      else if (n =? 116)%nat then
        match r with "r"%char :: "u"%char :: "e"%char :: r' => POk (JBool true) r' | _ => PErr end
      else if (n =? 102)%nat then
        match r with "a"%char :: "l"%char :: "s"%char :: "e"%char :: r' => POk (JBool false) r' | _ => PErr end
      else if (n =? 34)%nat then
        match p_str r with Some (u, r') => POk (JStr u) r' | None => PErr end
      else if (n =? 91)%nat then
        match skip_ws r with
        | c' :: r' => if (Ascii.nat_of_ascii c' =? 93)%nat then POk (JArr []) r' else p_elems f r []
        | [] => PErr
        end
      else if (n =? 123)%nat then
        match skip_ws r with
        | c' :: r' => if (Ascii.nat_of_ascii c' =? 125)%nat then POk (JObj []) r' else p_members f r []
        | [] => PErr
        end
      else
        match p_number (c :: r) with Some (v, r') => POk v r' | None => PErr end
  end
  end
with p_elems (f : nat) (s : list ascii) (acc : list JV) : Parse :=
  match f with
  | O => PFuel
  | S f =>
  match p_value f s with
  | POk v r =>
      match skip_ws r with
      | c :: r' =>
          if (Ascii.nat_of_ascii c =? 44)%nat then p_elems f r' (acc ++ [v])
          else if (Ascii.nat_of_ascii c =? 93)%nat then POk (JArr (acc ++ [v])) r'
          else PErr
      | [] => PErr
      end
  | e => e
  end
  end
with p_members (f : nat) (s : list ascii) (acc : list (list Z * JV)) : Parse :=
  match f with
  | O => PFuel
  | S f =>
  match skip_ws s with
  | c :: r =>
      if (Ascii.nat_of_ascii c =? 34)%nat then
        match p_str r with
        | Some (k, r1) =>
            match skip_ws r1 with
            | c1 :: r2 =>
                if (Ascii.nat_of_ascii c1 =? 58)%nat then
                  match p_value f r2 with
                  | POk v r3 =>
                      let acc := obj_set acc k v in
                      match skip_ws r3 with
                      | c3 :: r4 =>
                          if (Ascii.nat_of_ascii c3 =? 44)%nat then p_members f r4 acc
                          else if (Ascii.nat_of_ascii c3 =? 125)%nat then POk (JObj (own_keys_order acc)) r4
                          else PErr
                      | [] => PErr
                      end
                  | e => e
                  end
                else PErr
            | [] => PErr
            end
        | None => PErr
        end
      else PErr
  | [] => PErr
  end
  end.

(** [JSON.parse(s)]: [None] when it throws.  The fuel exceeds the depth
    of the descent ([json_parse_fuel]). *)
Definition JSON_parse (s : string) : option JV :=
  let cs := String.list_ascii_of_string s in
  match p_value (S (S (2 * length cs))) cs with
  | POk v r => match skip_ws r with [] => Some v | _ => None end
  | _ => None
  end.

(** ** [app.get("/status/:videoId", ...)] *)

(** The properties [JSON.stringify] writes: those that are not [undefined]. *)
Definition present (l : list (string * option JV)) : list (string * JV) :=
  omap (fun kv => (fun v => (kv.1, v)) <$> kv.2) l.

(** [fetch_fails]: [redis.hgetall] rejects. *)
Definition get_status (fetch_fails : bool) (videoId : string) (st : St) : Reply :=
  if String.eqb videoId "" then fail_reply 400 "Missing videoId."
  else if fetch_fails then fail_reply 500 "Failed to fetch video status"
  else
    let statusData := record_of (status_key videoId) st in
    if bool_decide (statusData = ∅) then
      fail_reply 404 "Video ID not found or processing not started."
    else
      match match statusData !! "urls" with
            | Some u => if String.eqb u "" then Some JNull else JSON_parse u
            | None => Some JNull
            end with
      | None => fail_reply 500 "Failed to fetch video status"
      | Some urls =>
          Respond 200 (present
            [("success", Some (JBool true)); ("videoId", Some (jstr videoId));
             ("status", jstr <$> statusData !! "status");
             ("progress", jstr <$> statusData !! "progress");
             ("error", Some (default JNull (jstr <$> statusData !! "error")));
             ("masterUrl", Some (default JNull (jstr <$> statusData !! "masterUrl")));
             ("urls", Some urls);
             ("createdAt", jstr <$> statusData !! "createdAt")])
      end.

(** The value [JSON.parse] gives for one entry of [urls]. *)
Definition jint (z : Z) : JV := jnum z 0.
Definition url_jv (tu : Z * string) : JV :=
  JObj [(units "type", jint tu.1); (units "url", jstr tu.2)].



(** The decimal digits of an unsigned numeral, most significant first. *)
Fixpoint uint_digits (u : Decimal.uint) : list Z :=
  match u with
  | Decimal.Nil => []
  | Decimal.D0 u => 0 :: uint_digits u
  | Decimal.D1 u => 1 :: uint_digits u
  | Decimal.D2 u => 2 :: uint_digits u
  | Decimal.D3 u => 3 :: uint_digits u
  | Decimal.D4 u => 4 :: uint_digits u
  | Decimal.D5 u => 5 :: uint_digits u
  | Decimal.D6 u => 6 :: uint_digits u
  | Decimal.D7 u => 7 :: uint_digits u
  | Decimal.D8 u => 8 :: uint_digits u
  | Decimal.D9 u => 9 :: uint_digits u
  end.

(** The text [json_escape] writes for one character. *)
Definition esc_of (c : ascii) : string :=
  let n := Ascii.nat_of_ascii c in
  if (n =? 34)%nat then "\" +:+ DQ
  else if (n =? 92)%nat then "\\"
  else if (n =? 8)%nat then "\b"
  else if (n =? 9)%nat then "\t"
  else if (n =? 10)%nat then "\n"
  else if (n =? 12)%nat then "\f"
  else if (n =? 13)%nat then "\r"
  else if (n <? 32)%nat then "\u00" +:+ hex_digit (n / 16) +:+ hex_digit (n mod 16)
  else String c EmptyString.

(** The descent [p] on input [s] did not run out of fuel and consumed input. *)
Definition fuel_ok (f : nat) (s : list ascii) (p : Parse) : Prop :=
  p <> PFuel /\ forall v r, p = POk v r -> (length r < length s)%nat.

(** Sample requests. *)
Definition pe_ok : PostEnv :=
  {| pe_ready := true; pe_connect := None;
     pe_uuid := fun k => match k with O => "0f1e2d3c" | _ => "9a8b7c6d" end;
     pe_iso_id := "2024-01-01T00:00:00.000Z"; pe_iso_created := "2024-01-01T00:00:01.000Z";
     pe_mkdir := fun _ => None;
     pe_events := [BFile "file" (Some "clip.mp4") "video/mp4" "<mp4>"; BWriteClose; BFinish];
     pe_unlink := fun _ => None; pe_hset := None; pe_add := None; pe_jid := "1" |}.

Definition pe_add_fails : PostEnv :=
  {| pe_ready := true; pe_connect := None; pe_uuid := pe_uuid pe_ok;
     pe_iso_id := pe_iso_id pe_ok; pe_iso_created := pe_iso_created pe_ok;
     pe_mkdir := fun _ => None; pe_events := pe_events pe_ok;
     pe_unlink := fun _ => None; pe_hset := None; pe_add := Some "Connection is closed."; pe_jid := "1" |}.

Definition pe_no_file : PostEnv :=
  {| pe_ready := true; pe_connect := None; pe_uuid := pe_uuid pe_ok;
     pe_iso_id := pe_iso_id pe_ok; pe_iso_created := pe_iso_created pe_ok;
     pe_mkdir := fun _ => None;
     pe_events := [BFile "video" (Some "clip.mp4") "video/mp4" "<mp4>"; BFinish];
     pe_unlink := fun _ => None; pe_hset := None; pe_add := None; pe_jid := "1" |}.

Definition st_post : St :=
  {| st_store := ∅; st_dirs := {["/tmp"]}; st_files := ∅; st_queue := ∅; st_trace := [];
     st_launched := false; st_ff_attached := false; st_up_attached := false |}.

(** A text file sent as the [file] part. *)
Definition pe_bad_type : PostEnv :=
  {| pe_ready := true; pe_connect := None; pe_uuid := pe_uuid pe_ok;
     pe_iso_id := pe_iso_id pe_ok; pe_iso_created := pe_iso_created pe_ok;
     pe_mkdir := fun _ => None;
     pe_events := [BFile "file" (Some "notes.txt") "text/plain" "hello"; BFinish];
     pe_unlink := fun _ => None; pe_hset := None; pe_add := None; pe_jid := "1" |}.

(** A [file] part without a [filename] parameter. *)
Definition pe_no_name : PostEnv :=
  {| pe_ready := true; pe_connect := None; pe_uuid := pe_uuid pe_ok;
     pe_iso_id := pe_iso_id pe_ok; pe_iso_created := pe_iso_created pe_ok;
     pe_mkdir := fun _ => None;
     pe_events := [BFile "file" None "video/mp4" "<mp4>"; BFinish];
     pe_unlink := fun _ => None; pe_hset := None; pe_add := None; pe_jid := "1" |}.


(* ================================================================== *)
(** * Lemmas about the pure parts *)

Lemma str_app_assoc (a b c : string) : (a +:+ b) +:+ c = a +:+ (b +:+ c).
Proof.
  induction a as [|x a IH]; [reflexivity|].
  change (String x ((a +:+ b) +:+ c) = String x (a +:+ (b +:+ c))). by rewrite IH.
Qed.

Lemma has_nl_app (a b : string) : has_nl (a +:+ b) = has_nl a || has_nl b.
Proof. induction a as [|c a IH]; simpl; [reflexivity|]. by rewrite IH, orb_assoc. Qed.

Lemma uint_str_no_nl (u : Decimal.uint) : has_nl (uint_str u) = false.
Proof. induction u; cbn; first [reflexivity | assumption]. Qed.

Lemma zstr_no_nl (z : Z) : has_nl (zstr z) = false.
Proof. destruct z; simpl; [reflexivity | apply uint_str_no_nl | apply uint_str_no_nl]. Qed.

Lemma lines_ne (s : string) : lines s <> [].
Proof.
  induction s as [|c s IH]; simpl; [discriminate|].
  destruct (Ascii.eqb c nl); [discriminate|]. destruct (lines s); discriminate.
Qed.

(** [split] turns a separator into a list boundary. *)
Lemma lines_sep (a b : string) : lines (a +:+ String nl b) = lines a ++ lines b.
Proof.
  induction a as [|c a IH]; simpl.
  - reflexivity.
  - rewrite IH. destruct (Ascii.eqb c nl); [reflexivity|].
    pose proof (lines_ne a) as Hne. destruct (lines a); [congruence | reflexivity].
Qed.

Lemma lines_no_nl (s : string) : has_nl s = false -> lines s = [s].
Proof.
  induction s as [|c s IH]; simpl; [reflexivity|].
  intros H. apply orb_false_iff in H as [H1 H2]. rewrite H1, IH by exact H2. reflexivity.
Qed.

Lemma lines_concat (l : list string) :
  l <> [] -> lines (String.concat NL l) = List.concat (map lines l).
Proof.
  induction l as [|x l IH]; [congruence|]. intros _.
  destruct l as [|y l].
  - simpl. by rewrite app_nil_r.
  - change (String.concat NL (x :: y :: l)) with (x +:+ String nl (String.concat NL (y :: l))).
    rewrite lines_sep, IH by discriminate. reflexivity.
Qed.

Lemma stream_entry_split (i : nat) (r : Rung) :
  stream_entry i r = stream_inf_line i r +:+ String nl (uri_line r).
Proof. unfold stream_entry, stream_inf_line, uri_line, NL. by rewrite !str_app_assoc. Qed.

Lemma lines_stream_entry (i : nat) (r : Rung) :
  lines (stream_entry i r) = [stream_inf_line i r; uri_line r].
Proof.
  rewrite stream_entry_split, lines_sep, !lines_no_nl; [reflexivity| |].
  - unfold uri_line. by rewrite has_nl_app, zstr_no_nl.
  - unfold stream_inf_line. by rewrite !has_nl_app, !zstr_no_nl.
Qed.

Lemma lines_entries (k : nat) (u : list Rung) :
  List.concat (map lines (mapi_from stream_entry k u))
  = List.concat (mapi_from (fun i r => [stream_inf_line i r; uri_line r]) k u).
Proof.
  revert k. induction u as [|r u IH]; intros k; [reflexivity|].
  cbn [mapi_from map]. rewrite lines_stream_entry. cbn [List.concat]. by rewrite IH.
Qed.

Lemma lookup_entries (k : nat) (u : list Rung) (i : nat) (r : Rung) :
  u !! i = Some r ->
  List.concat (mapi_from (fun i r => [stream_inf_line i r; uri_line r]) k u) !! (2 * i)%nat
    = Some (stream_inf_line (k + i) r) /\
  List.concat (mapi_from (fun i r => [stream_inf_line i r; uri_line r]) k u) !! (1 + 2 * i)%nat
    = Some (uri_line r).
Proof.
  revert k i. induction u as [|r' u IH]; intros k i H; [discriminate|].
  destruct i as [|i]; simpl in H.
  - injection H as ->. simpl. by rewrite Nat.add_0_r.
  - destruct (IH (S k) i H) as [H1 H2].
    replace (1 + 2 * S i)%nat with (S (S (1 + 2 * i))) by lia.
    replace (2 * S i)%nat with (S (S (2 * i))) by lia.
    simpl in H1, H2 |- *. rewrite H1, H2. split; [| reflexivity]. do 2 f_equal. lia.
Qed.

Lemma length_entries (k : nat) (u : list Rung) :
  length (List.concat (mapi_from (fun i r => [stream_inf_line i r; uri_line r]) k u)) = (2 * length u)%nat.
Proof. revert k. induction u as [|r u IH]; intros k; simpl; [reflexivity|]. rewrite IH. lia. Qed.

(* ================================================================== *)
(** * Frame lemmas for the primitives *)

Lemma hset_evs_app (l1 l2 : list Ev) : hset_evs (l1 ++ l2) = hset_evs l1 ++ hset_evs l2.
Proof. unfold hset_evs. apply omap_app. Qed.

Lemma quiet_refl (s : St) : quiet_step s s.
Proof. repeat split. Qed.

Lemma quiet_trans (s0 s1 s2 : St) : quiet_step s0 s1 -> quiet_step s1 s2 -> quiet_step s0 s2.
Proof. intros (A1 & B1 & C1) (A2 & B2 & C2). repeat split; congruence. Qed.

Lemma quiet_emit (e : Ev) (s : St) : hset_evs [e] = [] -> quiet_step s (emit e s).
Proof. intros H. repeat split. unfold emit; simpl. by rewrite hset_evs_app, H, app_nil_r. Qed.

Lemma mkdirs_quiet (env : Env) (ds : list string) (st : St) (err : option string) :
  quiet_step st (mkdirs env ds st err).1.
Proof.
  revert st err. induction ds as [|d ds IH]; intros st err; simpl; [apply quiet_refl|].
  destruct (env_mkdir env d); [apply IH|].
  eapply quiet_trans; [|apply IH]. eapply quiet_trans; [|apply quiet_emit; reflexivity].
  repeat split.
Qed.

Lemma mkdir_all_quiet (env : Env) (ds : list string) (st s : St) (r : Res unit) :
  mkdir_all env ds st = (s, r) -> quiet_step st s /\ (r = ROk () \/ exists m, r = RThrow m).
Proof.
  unfold mkdir_all. pose proof (mkdirs_quiet env ds st None) as Q.
  destruct (mkdirs env ds st None) as [s' [m|]]; intros [= <- <-]; eauto.
Qed.

Lemma rm_logged_quiet (env : Env) (p : string) (st : St) :
  quiet_step st (rm_logged env p st).1 /\ (rm_logged env p st).2 = ROk ().
Proof.
  unfold rm_logged. destruct (env_rm env p); split; try reflexivity.
  - apply quiet_emit; reflexivity.
  - eapply quiet_trans; [|apply quiet_emit; reflexivity]. repeat split.
Qed.

(** The [finally] block never throws and writes nothing to Redis. *)
Lemma cleanup_quiet (env : Env) (job : Job) (st : St) :
  quiet_step st (cleanup env job st).1 /\ (cleanup env job st).2 = ROk ().
Proof.
  unfold cleanup, mbind, M_bind.
  destruct (rm_logged_quiet env (uploadDir job) st) as [Q1 R1].
  destruct (rm_logged env (uploadDir job) st) as [s1 r1]; simpl in *; subst r1.
  destruct (rm_logged_quiet env (inputDir job) s1) as [Q2 R2].
  destruct (rm_logged env (inputDir job) s1) as [s2 r2]; simpl in *; subst r2.
  destruct (rm_logged_quiet env ("/tmp/" +:+ videoId job) s2) as [Q3 R3].
  destruct (rm_logged env ("/tmp/" +:+ videoId job) s2) as [s3 r3]; simpl in *; subst r3.
  split; [|reflexivity]. eauto using quiet_trans.
Qed.

(* ================================================================== *)
(** * Writes performed by a run *)

Lemma step_writes_quiet (s0 s : St) : quiet_step s0 s -> step_writes s0 s [].
Proof. intros (A & B & C). repeat split; [by rewrite app_nil_r | exact B | exact C]. Qed.

Lemma step_writes_refl (s : St) : step_writes s s [].
Proof. apply step_writes_quiet, quiet_refl. Qed.

Lemma step_writes_trans (s0 s1 s2 : St) ws1 ws2 :
  step_writes s0 s1 ws1 -> step_writes s1 s2 ws2 -> step_writes s0 s2 (ws1 ++ ws2).
Proof.
  intros (A1 & B1 & C1) (A2 & B2 & C2). repeat split.
  - by rewrite A2, A1, app_assoc.
  - by rewrite B2, B1, foldl_app.
  - congruence.
Qed.

Lemma step_writes_eq (s0 s : St) ws ws' : ws = ws' -> step_writes s0 s ws -> step_writes s0 s ws'.
Proof. by intros ->. Qed.

Lemma bind_inv {A B} (c : M A) (k : A -> M B) (st s : St) (r : Res B) :
  (c ≫= k) st = (s, r) ->
  (exists s1 a, c st = (s1, ROk a) /\ k a s1 = (s, r)) \/
  (exists m, c st = (s, RThrow m) /\ r = RThrow m) \/
  (exists m, c st = (s, RCrash m) /\ r = RCrash m).
Proof.
  unfold mbind, M_bind. destruct (c st) as [s1 [a|m|m]]; intros H.
  - left. eauto.
  - right; left. injection H as <- <-. eauto.
  - right; right. injection H as <- <-. eauto.
Qed.

Section Inversion.
Variable env : Env.

Lemma hset_inv p k fs (st s : St) (r : Res unit) :
  hset env p k fs st = (s, r) ->
  (r = ROk () /\ env_hset env p = None /\ step_writes st s [(k, fs)]) \/
  (exists m, r = RThrow m /\ env_hset env p = Some m /\ s = st).
Proof.
  unfold hset. destruct (env_hset env p) as [m|] eqn:E; intros H; injection H as <- <-.
  - right. eauto.
  - left. repeat split. unfold emit; simpl. by rewrite hset_evs_app.
Qed.

Lemma probe_inv (st s : St) (r : Res (Z * Z)) :
  getVideoResolution env st = (s, r) -> s = st /\
  ((exists w h, r = ROk (w, h) /\ env_probe env = inr (w, h)) \/ (exists m, r = RThrow m)).
Proof.
  unfold getVideoResolution, throw, mret, M_ret.
  destruct (env_probe env) as [m|[w h]]; intros H; injection H as <- <-; eauto 6.
Qed.

Lemma mret_inv {A} (a : A) (st s : St) (r : Res A) : @mret M _ A a st = (s, r) -> s = st /\ r = ROk a.
Proof. unfold mret, M_ret. by intros [= <- <-]. Qed.

Lemma throw_inv {A} m (st s : St) (r : Res A) : throw m st = (s, r) -> s = st /\ r = RThrow m.
Proof. unfold throw. by intros [= <- <-]. Qed.

Lemma launch_inv (st s : St) (r : Res unit) :
  launch_workers st = (s, r) -> step_writes st s [] /\ r = ROk () /\ st_launched s = true.
Proof. unfold launch_workers. intros [= <- <-]. split; [|done]. by apply step_writes_quiet. Qed.

Lemma processing_inv k (st s : St) (r : Res unit) :
  processing_write env k st = (s, r) ->
  let fs := [("status", "Processing & Uploading"); ("progress", "20")] in
  (r = ROk () /\ early_rejection env = None /\ step_writes st s [(k, fs)]) \/
  ((exists m, r = RThrow m \/ r = RCrash m) /\ (step_writes st s [(k, fs)] \/ step_writes st s [])).
Proof.
  unfold processing_write. destruct (hset env HProcessing k _ st) as [s1 r1] eqn:E.
  apply hset_inv in E as [(-> & _ & W) | (m & -> & _ & ->)];
    destruct (early_rejection env); intros [= <- <-]; eauto 6 using step_writes_refl.
Qed.

Lemma await_ffmpeg_inv (st s : St) (r : Res unit) :
  await_ffmpeg env st = (s, r) -> step_writes st s [] /\
  (r = ROk () -> env_ffmpeg env = None) /\ st_ff_attached s = true /\
  st_launched s = st_launched st /\ st_up_attached s = st_up_attached st.
Proof.
  unfold await_ffmpeg.
  destruct (if env_ff_early env then None else _) as [m|];
    [|destruct (env_ffmpeg env)]; intros [= <- <-];
    (split; [apply step_writes_quiet; repeat split|]); repeat split; try done.
Qed.

Lemma await_upload_inv (st s : St) (r : Res (list (Z * string))) :
  await_upload env st = (s, r) -> step_writes st s [] /\
  ((exists urls, r = ROk urls /\ env_upload env = inr urls) \/ (exists m, r = RThrow m)).
Proof.
  unfold await_upload. destruct (env_upload env) as [m|urls]; intros [= <- <-];
    (split; [apply step_writes_quiet; repeat split|]); eauto.
Qed.

Lemma writeFile_inv p c (st s : St) (r : Res unit) :
  writeFile env p c st = (s, r) -> step_writes st s [] /\ (r = ROk () \/ exists m, r = RThrow m).
Proof.
  unfold writeFile. destruct (env_write env) as [m|]; intros [= <- <-]; split; eauto using step_writes_refl.
  apply step_writes_quiet. eapply quiet_trans; [|apply quiet_emit; reflexivity]. repeat split.
Qed.

Lemma cloud_inv p f (st s : St) (r : Res string) :
  uploadToCloudinary env p f st = (s, r) -> step_writes st s [] /\
  ((exists url, r = ROk url /\ env_cloud env = inr url) \/ (exists m, r = RThrow m)).
Proof.
  unfold uploadToCloudinary. destruct (env_cloud env) as [m|url]; intros [= <- <-];
    split; eauto using step_writes_refl.
  apply step_writes_quiet, quiet_emit. reflexivity.
Qed.

Lemma mkdir_all_inv ds (st s : St) (r : Res unit) :
  mkdir_all env ds st = (s, r) -> step_writes st s [] /\ (r = ROk () \/ exists m, r = RThrow m).
Proof. intros H. apply mkdir_all_quiet in H as [Q R]. split; [by apply step_writes_quiet | exact R]. Qed.

Lemma cleanup_inv job (st s : St) (r : Res unit) :
  cleanup env job st = (s, r) -> step_writes st s [] /\ r = ROk ().
Proof.
  intros H. pose proof (cleanup_quiet env job st) as [Q R]. rewrite H in Q, R.
  split; [by apply step_writes_quiet | exact R].
Qed.

End Inversion.

Ltac inv_prim E :=
  lazymatch type of E with
  | hset _ _ _ _ _ = _ => apply hset_inv in E as [(? & ? & ?) | (? & ? & ? & ?)]
  | getVideoResolution _ _ = _ => apply probe_inv in E as [? [(? & ? & ? & ?) | (? & ?)]]
  | mret _ _ = _ => apply mret_inv in E as [? ?]
  | throw _ _ = _ => apply throw_inv in E as [? ?]
  | launch_workers _ = _ => apply launch_inv in E as (? & ? & ?)
  | processing_write _ _ _ = _ => apply processing_inv in E as [(? & ? & ?) | ((? & [? | ?]) & [? | ?])]
  | await_ffmpeg _ _ = _ => apply await_ffmpeg_inv in E as (? & ? & ? & ? & ?)
  | await_upload _ _ = _ => apply await_upload_inv in E as [? [(? & ? & ?) | (? & ?)]]
  | writeFile _ _ _ _ = _ => apply writeFile_inv in E as [? [? | (? & ?)]]
  | uploadToCloudinary _ _ _ _ = _ => apply cloud_inv in E as [? [(? & ? & ?) | (? & ?)]]
  | mkdir_all _ _ _ = _ => apply mkdir_all_inv in E as [? [? | (? & ?)]]
  | (if ?b then _ else _) _ = _ => destruct b; inv_prim E
  end; simplify_eq.

Ltac inv_bind H :=
  let E := fresh "E" in
  apply bind_inv in H as [(? & ? & E & H) | [(? & E & ?) | (? & E & ?)]];
  inv_prim E; cbn beta iota zeta in H.

Ltac chain_writes :=
  first [ eassumption | apply step_writes_refl | eapply step_writes_trans; [eassumption | chain_writes] ].

Ltac leaf_at n :=
  exists n; split; [lia|]; split;
  [ eapply step_writes_eq; cycle 1; [chain_writes|];
    unfold env_master_url, env_urls_json; simplify_eq; repeat match goal with H : _ = inr _ |- _ => rewrite H end;
    reflexivity
  | split; intros; simplify_eq; done ].

Ltac leaf_writes := first [leaf_at 0%nat | leaf_at 1%nat | leaf_at 2%nat | leaf_at 3%nat | leaf_at 4%nat | leaf_at 5%nat].

(** The [try] block writes a prefix of the five milestones, and all five
    exactly when it resolves. *)
Lemma try_writes env job st s r :
  processJob_try env job st = (s, r) ->
  exists n, (n <= 5)%nat /\
    step_writes st s (map (pair (status_key (videoId job)))
                        (take n (milestone_writes (env_master_url env) (env_urls_json env)))) /\
    (r = ROk () <-> n = 5%nat).
Proof.
  intros H. unfold processJob_try in H.
  repeat (inv_bind H; try leaf_writes).
  all: inv_prim H; leaf_writes.
Qed.

Lemma processJob_writes env job st s r :
  processJob env job st = (s, r) ->
  exists n e, (n <= 5)%nat /\
    step_writes st s (map (pair (status_key (videoId job)))
      (take n (milestone_writes (env_master_url env) (env_urls_json env)) ++ e)) /\
    run_shape n e r.
Proof.
  unfold processJob, finally, catch. intros H.
  destruct (processJob_try env job st) as [s1 r1] eqn:ET.
  apply try_writes in ET as (n & Hn & W1 & Hr).
  destruct r1 as [[]|m|m].
  - destruct (cleanup env job s1) as [s2 r2] eqn:EC. apply cleanup_inv in EC as [W2 ->].
    injection H as <- <-. exists n, []. rewrite app_nil_r.
    assert (n = 5%nat) as -> by (apply Hr; reflexivity).
    split; [lia|]. split; [|left; auto].
    eapply step_writes_eq; [|eapply step_writes_trans; eauto]. by rewrite app_nil_r.
  - assert (n <> 5%nat) by (intros Hn5; apply Hr in Hn5; discriminate).
    destruct (processJob_catch env job m s1) as [s2 r2] eqn:EH.
    unfold processJob_catch in EH.
    apply hset_inv in EH as [(-> & _ & W2) | (m' & -> & _ & ->)];
      destruct (cleanup env job _) as [s3 r3] eqn:EC; apply cleanup_inv in EC as [W3 ->];
      injection H as <- <-.
    + exists n, [error_fields m]. split; [lia|]. split.
      * eapply step_writes_eq; [|eapply step_writes_trans; [eapply step_writes_trans; eauto|eauto]].
        by rewrite map_app, app_nil_r.
      * right. split; [lia|]. left. eauto.
    + exists n, []. split; [lia|]. split.
      * eapply step_writes_eq; [|eapply step_writes_trans; eauto]. by rewrite !app_nil_r.
      * right. split; [lia|]. right. eauto.
  - injection H as <- <-. assert (n <> 5%nat) by (intros Hn5; apply Hr in Hn5; discriminate).
    exists n, []. split; [lia|]. split.
    + by rewrite app_nil_r.
    + right. split; [lia|]. right. eauto.
Qed.

Lemma enqueue_writes opts jid job t st :
  hset_evs (st_trace (enqueue opts jid job t st)) =
    hset_evs (st_trace st) ++ [(status_key (videoId job), queued_fields t)] /\
  st_store (enqueue opts jid job t st) =
    foldl apply_write (st_store st) [(status_key (videoId job), queued_fields t)] /\
  st_queue (enqueue opts jid job t st) = <[jid := (job, opts)]> (st_queue st).
Proof. split; [|split; reflexivity]. simpl. by rewrite hset_evs_app. Qed.

(** With [app_opts] the job is gone when the observer looks it up. *)
Lemma settle_quiet env jid job r s :
  st_queue s !! jid = Some (job, app_opts) ->
  st_trace (match (finish jid r s).2 with
            | Some e => (on_event env jid e (finish jid r s).1).1
            | None => (finish jid r s).1 end) = st_trace s /\
  st_store (match (finish jid r s).2 with
            | Some e => (on_event env jid e (finish jid r s).1).1
            | None => (finish jid r s).1 end) = st_store s.
Proof.
  intros H. unfold finish. rewrite H.
  destruct r; simpl; unfold on_event; simpl; rewrite ?lookup_delete_eq; auto.
Qed.

Lemma runJob_writes env jid job t st0 :
  let key := status_key (videoId job) in
  exists n e, (n <= 5)%nat /\
    hset_evs (st_trace (o_st (runJob env jid job t st0))) =
      (key, queued_fields t) :: map (pair key)
        (take n (milestone_writes (env_master_url env) (env_urls_json env)) ++ e) /\
    st_store (o_st (runJob env jid job t st0)) =
      foldl apply_write (st_store st0) ((key, queued_fields t) :: map (pair key)
        (take n (milestone_writes (env_master_url env) (env_urls_json env)) ++ e)) /\
    run_shape n e (o_res (runJob env jid job t st0)).
Proof.
  intros key. unfold runJob, runJobWith.
  destruct (enqueue_writes app_opts jid job t (fresh st0)) as (E1 & E2 & E3).
  destruct (processJob env job (enqueue app_opts jid job t (fresh st0))) as [s2 r] eqn:E.
  apply processJob_writes in E as (n & e & Hn & (W1 & W2 & W3) & Hs).
  assert (HQ : st_queue s2 !! jid = Some (job, app_opts))
    by (rewrite W3, E3; apply lookup_insert_eq).
  destruct (settle_quiet env jid job r s2 HQ) as [T S].
  destruct (finish jid r s2) as [s3 ev]. simpl in T, S |- *.
  exists n, e. split; [exact Hn|]. split; [|split; [|exact Hs]].
  - by rewrite T, W1, E1.
  - by rewrite S, W2, E2, <- foldl_app.
Qed.

Lemma writes_to_pairs (key : string) (l : list (list (string * string))) :
  omap (fun kfs : string * list (string * string) =>
          if String.eqb kfs.1 key then Some kfs.2 else None) (map (pair key) l) = l.
Proof. induction l as [|fs l IH]; [done|]. simpl. rewrite String.eqb_refl. f_equal. exact IH. Qed.

Lemma runJob_writes_to env jid job t st0 :
  exists n e, (n <= 5)%nat /\
    writes_to (status_key (videoId job)) (st_trace (o_st (runJob env jid job t st0))) =
      queued_fields t :: take n (milestone_writes (env_master_url env) (env_urls_json env)) ++ e /\
    run_shape n e (o_res (runJob env jid job t st0)).
Proof.
  destruct (runJob_writes env jid job t st0) as (n & e & Hn & H1 & _ & Hs).
  exists n, e. split; [done|]. split; [|done].
  unfold writes_to. rewrite H1. apply (writes_to_pairs _ (_ :: _)).
Qed.

(** C1: over a whole run (submission, [processJob], BullMQ's settlement and
    the queue-level observer) the [status] values written to [video:<id>]
    are a prefix of queued, checking, processing, generating, uploading,
    completed, possibly followed by one final [error]; a run that writes
    completed writes exactly the six states in order. *)
Theorem C1_status_monotone env jid job t st0 :
  let seq := status_seq (status_key (videoId job)) (st_trace (o_st (runJob env jid job t st0))) in
  ((exists n, (1 <= n <= 6)%nat /\ seq = take n pipeline_states) \/
   (exists n, (1 <= n <= 5)%nat /\ seq = take n pipeline_states ++ ["error"])) /\
  ("completed" ∈ seq -> seq = pipeline_states).
Proof.
  intros seq. destruct (runJob_writes_to env jid job t st0) as (n & e & Hn & H1 & Hs).
  unfold seq, status_seq. rewrite H1. clear seq H1.
  destruct Hs as [(-> & -> & _) | (Hlt & [(m & -> & _) | (-> & _)])].
  - split; [left; exists 6%nat; split; [lia|reflexivity] | reflexivity].
  - split; [right; exists (S n); split; [lia|]|];
      (destruct n as [|[|[|[|[|n]]]]]; [..|lia]); try reflexivity;
      intros Hin; apply list_elem_of_In in Hin; simpl in Hin;
      repeat destruct Hin as [Hin|Hin]; discriminate || contradiction.
  - split; [left; exists (S n); split; [lia|]|];
      (destruct n as [|[|[|[|[|n]]]]]; [..|lia]); try reflexivity;
      intros Hin; apply list_elem_of_In in Hin; simpl in Hin;
      repeat destruct Hin as [Hin|Hin]; discriminate || contradiction.
Qed.

Lemma foldl_apply_write_key (key : string) (l : list (list (string * string))) s :
  l <> [] ->
  foldl apply_write s (map (pair key) l) !! key = Some (foldl apply_fields (default ∅ (s !! key)) l).
Proof.
  revert s. induction l as [|fs l IH]; intros s Hl; [done|]. simpl.
  destruct l as [|fs' l].
  - simpl. unfold apply_write. simpl. apply lookup_insert_eq.
  - rewrite IH by done. unfold apply_write. simpl. by rewrite lookup_insert_eq.
Qed.

Lemma foldl_in_records r (l : list (list (string * string))) :
  l <> [] -> foldl apply_fields r l ∈ records_from r l.
Proof.
  revert r. induction l as [|fs l IH]; intros r Hl; [done|]. simpl.
  destruct l as [|fs' l]; [by left|]. right. apply IH. done.
Qed.

Ltac close_iff :=
  first [ intros [? ?]; discriminate | intros ?; discriminate
        | intros _; eexists; reflexivity | intros _; reflexivity ].

(** C2: every write sets [masterUrl] and [urls] exactly when it sets the
    status to completed; so does every record the writes produce from an
    empty one, and the final stored record when the key was fresh. *)
Theorem C2_urls_iff_completed env jid job t st0 :
  let key := status_key (videoId job) in
  let ws := writes_to key (st_trace (o_st (runJob env jid job t st0))) in
  Forall write_url_iff ws /\ Forall url_iff (records_from ∅ ws) /\
  (st_store st0 !! key = None -> url_iff (record_of key (o_st (runJob env jid job t st0)))).
Proof.
  intros key ws.
  destruct (runJob_writes env jid job t st0) as (n & e & Hn & H1 & S1 & Hs).
  assert (Hws : ws = queued_fields t :: take n (milestone_writes (env_master_url env) (env_urls_json env)) ++ e).
  { unfold ws, writes_to. rewrite H1. apply (writes_to_pairs _ (_ :: _)). }
  assert (HF : Forall write_url_iff ws /\ Forall url_iff (records_from ∅ ws)).
  { rewrite Hws. clear ws H1 S1 Hws.
    unfold write_url_iff, url_iff.
    destruct Hs as [(-> & -> & _) | (Hlt & [(m & -> & _) | (-> & _)])];
      [|destruct n as [|[|[|[|[|n]]]]]; [..|lia] ..];
      split; repeat constructor; vm_compute; close_iff. }
  split; [apply HF|]. split; [apply HF|]. intros H0.
  destruct HF as [_ HF]. rewrite Forall_forall in HF. apply HF.
  unfold record_of. rewrite S1. fold key.
  change ((key, queued_fields t) :: map (pair key) ?L) with (map (pair key) (queued_fields t :: L)).
  rewrite (foldl_apply_write_key key (_ :: _)) by done. rewrite H0, <- Hws.
  apply foldl_in_records. by rewrite Hws.
Qed.

(** C3: for a landscape source with [min(width, height) >= 360] the ladder
    is the 360p rung followed by the optional rungs whose threshold is at
    most the height, with their canonical widths; every rung fits under the
    source height and the heights increase strictly. *)
Theorem C3_ladder (d : string) (w h : Z) :
  h <= w -> 360 <= Z.min w h ->
  buildLadder d h =
    mkRung (d +:+ "/360p") 360 640 :: List.filter (fun r => height r <=? h) (optional_rungs d) /\
  Forall (fun r => height r <= h) (buildLadder d h) /\
  StronglySorted (fun a b => height a < height b) (buildLadder d h).
Proof.
  intros Hhw Hmin. assert (H360 : 360 <= h) by lia.
  unfold buildLadder, optional_rungs, push. cbn [List.filter height mkRung].
  destruct (Z.leb_spec 480 h), (Z.leb_spec 720 h), (Z.leb_spec 1080 h),
    (Z.leb_spec 1620 h), (Z.leb_spec 2430 h); try lia;
    simpl; (split; [reflexivity|]); split;
    repeat constructor; simpl; lia.
Qed.

Lemma C3_ladder_witness :
  (1080 <= 1920 /\ 360 <= Z.min 1920 1080) /\
  buildLadder "/tmp/v/out" 1080 =
    mkRung ("/tmp/v/out" +:+ "/360p") 360 640 ::
      List.filter (fun r => height r <=? 1080) (optional_rungs "/tmp/v/out").
Proof.
  split; [lia|]. apply (C3_ladder "/tmp/v/out" 1920 1080); lia.
Defined.

(** C4 (fails): when the upload worker rejects while the runner awaits the
    FFmpeg promise, the rejection has no handler; on Node 21 the process
    dies with it, the [catch] block never runs and the record stays at
    Processing & Uploading with an empty [error]. *)
Theorem C4_upload_rejection_crashes :
  let o := runJob env_upload_fails "1" job_v1 "2024-01-01T00:00:00.000Z" st_v1 in
  o_res o = RCrash "Upload worker exited with code 1" /\
  status_seq (status_key "v1") (st_trace (o_st o)) =
    ["queued"; "checking video resolutions"; "Processing & Uploading"] /\
  record_of (status_key "v1") (o_st o) !! "status" = Some "Processing & Uploading" /\
  record_of (status_key "v1") (o_st o) !! "error" = Some "".
Proof. vm_compute. repeat split. Qed.

(** C5 (fails): in the same run the [finally] block never runs: no [fs.rm]
    happens, the input directory and file and the rung directories remain. *)
Theorem C5_upload_rejection_skips_cleanup :
  let o := runJob env_upload_fails "1" job_v1 "2024-01-01T00:00:00.000Z" st_v1 in
  o_res o = RCrash "Upload worker exited with code 1" /\
  existsb is_rm (st_trace (o_st o)) = false /\
  bool_decide ("/tmp/v1/in" ∈ st_dirs (o_st o)) = true /\
  bool_decide ("/tmp/v1/out/1080p" ∈ st_dirs (o_st o)) = true /\
  st_files (o_st o) !! "/tmp/v1/in/video.mp4" = Some "<mp4>".
Proof. vm_compute. repeat split. Qed.

Lemma try_rejects env job st w h :
  env_hset env HChecking = None -> env_probe env = inr (w, h) ->
  w < h \/ Z.min h w < 360 ->
  processJob_try env job st =
    ((hset env HChecking (status_key (videoId job)) checking_fields st).1, RThrow (reject_msg w h)).
Proof.
  intros HC HP Hr. unfold processJob_try, reject_msg.
  cbv [mbind M_bind]. unfold hset at 1. rewrite HC. unfold getVideoResolution. rewrite HP.
  cbv [mret M_ret]. simpl.
  destruct (Z.gtb_spec h w).
  - simpl. unfold hset. rewrite HC. reflexivity.
  - destruct (Z.ltb_spec (Z.min h w) 360); [|lia]. simpl. unfold hset. rewrite HC. reflexivity.
Qed.

Lemma cleanup_no_mkdir env job st :
  existsb is_mkdir (st_trace (cleanup env job st).1) = existsb is_mkdir (st_trace st).
Proof.
  unfold cleanup. cbv [mbind M_bind]. unfold rm_logged.
  destruct (env_rm env (uploadDir job)), (env_rm env (inputDir job)), (env_rm env ("/tmp/" +:+ videoId job));
    simpl; rewrite ?existsb_app; simpl; rewrite ?orb_false_r; reflexivity.
Qed.


Lemma processJob_rejects env job st w h :
  env_hset env HChecking = None -> env_hset env HError = None -> env_probe env = inr (w, h) ->
  w < h \/ Z.min h w < 360 ->
  exists s, processJob env job st = (s, ROk ()) /\
    step_writes st s [(status_key (videoId job), checking_fields);
                      (status_key (videoId job), error_fields (reject_msg w h))] /\
    existsb is_mkdir (st_trace s) = existsb is_mkdir (st_trace st).
Proof.
  intros HC HE HP Hr. unfold processJob, finally, catch.
  rewrite (try_rejects env job st w h HC HP Hr).
  destruct (hset env HChecking _ _ st) as [s1 r1] eqn:E1. simpl.
  assert (M1 : existsb is_mkdir (st_trace s1) = existsb is_mkdir (st_trace st)).
  { unfold hset in E1. rewrite HC in E1. injection E1 as <- _. simpl.
    by rewrite existsb_app, orb_false_r. }
  apply hset_inv in E1 as [(_ & _ & W1) | (m & _ & HC' & _)]; [|congruence].
  unfold processJob_catch.
  destruct (hset env HError _ _ s1) as [s2 r2] eqn:E2.
  assert (M2 : existsb is_mkdir (st_trace s2) = existsb is_mkdir (st_trace s1)).
  { unfold hset in E2. rewrite HE in E2. injection E2 as <- _. simpl.
    by rewrite existsb_app, orb_false_r. }
  apply hset_inv in E2 as [(-> & _ & W2) | (m & _ & HE' & _)]; [|congruence].
  pose proof (cleanup_no_mkdir env job s2) as M3.
  destruct (cleanup env job s2) as [s3 r3] eqn:EC. simpl in M3.
  apply cleanup_inv in EC as [W3 ->].
  exists s3. split; [reflexivity|]. split; [|congruence].
  eapply step_writes_eq; [|eapply step_writes_trans; [eapply step_writes_trans; eauto|eauto]].
  reflexivity.
Qed.

Lemma run_rejects env jid job t st0 w h :
  env_hset env HChecking = None -> env_hset env HError = None -> env_probe env = inr (w, h) ->
  w < h \/ Z.min h w < 360 ->
  o_res (runJob env jid job t st0) = ROk () /\
  writes_to (status_key (videoId job)) (st_trace (o_st (runJob env jid job t st0))) =
    [queued_fields t; checking_fields; error_fields (reject_msg w h)] /\
  existsb is_mkdir (st_trace (o_st (runJob env jid job t st0))) = false /\
  st_store (o_st (runJob env jid job t st0)) =
    foldl apply_write (st_store st0)
      (map (pair (status_key (videoId job))) [queued_fields t; checking_fields; error_fields (reject_msg w h)]).
Proof.
  intros HC HE HP Hr. unfold runJob, runJobWith.
  destruct (enqueue_writes app_opts jid job t (fresh st0)) as (E1 & E2 & E3).
  destruct (processJob_rejects env job (enqueue app_opts jid job t (fresh st0)) w h HC HE HP Hr)
    as (s2 & -> & (W1 & W2 & W3) & NM).
  assert (HQ : st_queue s2 !! jid = Some (job, app_opts))
    by (rewrite W3, E3; apply lookup_insert_eq).
  destruct (settle_quiet env jid job (ROk ()) s2 HQ) as [T S].
  destruct (finish jid (ROk ()) s2) as [s3 ev]. simpl in T, S |- *.
  split; [reflexivity|]. split; [|split].
  - unfold writes_to. rewrite T, W1, E1. apply (writes_to_pairs _ [_; _; _]).
  - rewrite T, NM. reflexivity.
  - by rewrite S, W2, E2, <- foldl_app.
Qed.

Lemma error_record (r : gmap string string) (m : string) :
  apply_fields r (error_fields m) !! "status" = Some "error" /\
  apply_fields r (error_fields m) !! "error" = Some m.
Proof.
  unfold apply_fields, error_fields. simpl. split.
  - rewrite lookup_insert_ne by done. apply lookup_insert_eq.
  - apply lookup_insert_eq.
Qed.

Lemma run_rejects_record env jid job t st0 w h :
  env_hset env HChecking = None -> env_hset env HError = None -> env_probe env = inr (w, h) ->
  w < h \/ Z.min h w < 360 ->
  let key := status_key (videoId job) in
  let o := runJob env jid job t st0 in
  o_res o = ROk () /\
  status_seq key (st_trace (o_st o)) = ["queued"; "checking video resolutions"; "error"] /\
  record_of key (o_st o) !! "status" = Some "error" /\
  record_of key (o_st o) !! "error" = Some (reject_msg w h) /\
  existsb is_mkdir (st_trace (o_st o)) = false.
Proof.
  intros HC HE HP Hr key o.
  destruct (run_rejects env jid job t st0 w h HC HE HP Hr) as (R & W & NM & S).
  unfold o, key, status_seq, record_of. rewrite W, S, foldl_apply_write_key by done.
  simpl. destruct (error_record (apply_fields (apply_fields (default ∅ (st_store st0 !! status_key (videoId job)))
      (queued_fields t)) checking_fields) (reject_msg w h)) as [E1 E2].
  repeat split; assumption.
Qed.

(** C6: a portrait source ends the run in [error] with the aspect-ratio
    message, and no directory is created. *)
Theorem C6_portrait_rejected env jid job t st0 w h :
  env_probe env = inr (w, h) -> w < h ->
  env_hset env HChecking = None -> env_hset env HError = None ->
  let key := status_key (videoId job) in
  let o := runJob env jid job t st0 in
  o_res o = ROk () /\
  status_seq key (st_trace (o_st o)) = ["queued"; "checking video resolutions"; "error"] /\
  record_of key (o_st o) !! "status" = Some "error" /\
  record_of key (o_st o) !! "error" = Some aspect_msg /\
  existsb is_mkdir (st_trace (o_st o)) = false.
Proof.
  intros HP Hlt HC HE.
  assert (Hm : reject_msg w h = aspect_msg).
  { unfold reject_msg. destruct (Z.gtb_spec h w); [reflexivity|lia]. }
  rewrite <- Hm. apply run_rejects_record; auto.
Qed.

Lemma C6_portrait_rejected_witness :
  let key := status_key (videoId job_v1) in
  let o := runJob (env_probed 1080 1920) "1" job_v1 "2024-01-01T00:00:00.000Z" st_v1 in
  o_res o = ROk () /\
  status_seq key (st_trace (o_st o)) = ["queued"; "checking video resolutions"; "error"] /\
  record_of key (o_st o) !! "status" = Some "error" /\
  record_of key (o_st o) !! "error" = Some aspect_msg /\
  existsb is_mkdir (st_trace (o_st o)) = false.
Proof.
  apply (C6_portrait_rejected (env_probed 1080 1920) "1" job_v1 "2024-01-01T00:00:00.000Z" st_v1 1080 1920);
    reflexivity || lia.
Defined.

(** The amended C7: below 360 the run ends in [error] with no rung
    directory, and the message is the too-low one only for a landscape
    source. *)
Theorem C7_low_resolution_rejected env jid job t st0 w h :
  env_probe env = inr (w, h) -> Z.min w h < 360 ->
  env_hset env HChecking = None -> env_hset env HError = None ->
  let key := status_key (videoId job) in
  let o := runJob env jid job t st0 in
  o_res o = ROk () /\
  status_seq key (st_trace (o_st o)) = ["queued"; "checking video resolutions"; "error"] /\
  record_of key (o_st o) !! "status" = Some "error" /\
  record_of key (o_st o) !! "error" = Some (if h >? w then aspect_msg else too_low_msg w h) /\
  existsb is_mkdir (st_trace (o_st o)) = false.
Proof.
  intros HP Hlt HC HE. apply run_rejects_record; auto. lia.
Qed.

Lemma C7_low_resolution_rejected_witness :
  let key := status_key (videoId job_v1) in
  let o := runJob (env_probed 480 270) "1" job_v1 "2024-01-01T00:00:00.000Z" st_v1 in
  o_res o = ROk () /\
  status_seq key (st_trace (o_st o)) = ["queued"; "checking video resolutions"; "error"] /\
  record_of key (o_st o) !! "status" = Some "error" /\
  record_of key (o_st o) !! "error" = Some (if 270 >? 480 then aspect_msg else too_low_msg 480 270) /\
  existsb is_mkdir (st_trace (o_st o)) = false.
Proof.
  apply (C7_low_resolution_rejected (env_probed 480 270) "1" job_v1 "2024-01-01T00:00:00.000Z" st_v1 480 270);
    reflexivity || lia.
Defined.

(** A 300x400 source: below 360 on both sides, yet the record carries the
    aspect-ratio message, not a too-low one. *)
Theorem C7_counterexample :
  let o := runJob (env_probed 300 400) "1" job_v1 "2024-01-01T00:00:00.000Z" st_v1 in
  Z.min 300 400 < 360 /\
  record_of (status_key "v1") (o_st o) !! "status" = Some "error" /\
  record_of (status_key "v1") (o_st o) !! "error" = Some "Aspect ratio should be landscape" /\
  String.prefix "Video resolution too low" "Aspect ratio should be landscape" = false.
Proof. vm_compute. repeat split. Qed.

Lemma mapi_from_stream_entry (k : nat) (u1 u2 : list Rung) :
  map (fun r => (width r, height r)) u1 = map (fun r => (width r, height r)) u2 ->
  mapi_from stream_entry k u1 = mapi_from stream_entry k u2.
Proof.
  revert k u2. induction u1 as [|r1 u1 IH]; intros k [|r2 u2] H; try discriminate; [reflexivity|].
  simpl in H. injection H as Hw Hh Hu. simpl. f_equal; [|by apply IH].
  unfold stream_entry. by rewrite Hw, Hh.
Qed.

(** C8: the playlist is a function of the rungs' widths and heights alone
    (the [dir] field is not read); in particular equal rung lists give
    byte-identical output. *)
Theorem C8_playlist_deterministic (u1 u2 : list Rung) :
  map (fun r => (width r, height r)) u1 = map (fun r => (width r, height r)) u2 ->
  generateMasterPlaylist u1 = generateMasterPlaylist u2.
Proof.
  intros H. unfold generateMasterPlaylist. by rewrite (mapi_from_stream_entry 0 u1 u2 H).
Qed.

Lemma C8_playlist_deterministic_witness :
  generateMasterPlaylist (buildLadder "/tmp/a/out" 1080) =
  generateMasterPlaylist (buildLadder "/tmp/b/out" 1080).
Proof. apply C8_playlist_deterministic. reflexivity. Defined.

(** C9: line 0 is the header; rung [i] gets lines [1+2i] and [2+2i]. *)
Theorem C9_playlist_entries (u : list Rung) :
  let ls := lines (generateMasterPlaylist u) in
  length ls = (1 + 2 * length u)%nat /\
  ls !! 0%nat = Some "#EXTM3U" /\
  (forall i r, u !! i = Some r ->
     ls !! (1 + 2 * i)%nat =
       Some ("#EXT-X-STREAM-INF:BANDWIDTH=" +:+ zstr ((Z.of_nat i + 1) * 250000)
             +:+ ",RESOLUTION=" +:+ zstr (width r) +:+ "x" +:+ zstr (height r)) /\
     ls !! (2 + 2 * i)%nat = Some (zstr (height r) +:+ "p/index.m3u8")) /\
  (forall i j, (i < j)%nat -> (Z.of_nat i + 1) * 250000 < (Z.of_nat j + 1) * 250000).
Proof.
  intros ls.
  assert (Hls : ls = "#EXTM3U" :: List.concat (mapi_from (fun i r => [stream_inf_line i r; uri_line r]) 0 u)).
  { unfold ls, generateMasterPlaylist. rewrite lines_concat by discriminate.
    cbn [map List.concat]. rewrite lines_entries. reflexivity. }
  rewrite Hls. split; [|split; [reflexivity|split]].
  - simpl. by rewrite length_entries.
  - intros i r Hr. destruct (lookup_entries 0 u i r Hr) as [H1 H2]. split.
    + change ((_ :: ?L) !! (1 + 2 * i)%nat) with (L !! (2 * i)%nat). rewrite H1. reflexivity.
    + change ((_ :: ?L) !! (2 + 2 * i)%nat) with (L !! (1 + 2 * i)%nat). rewrite H2. reflexivity.
  - intros i j Hij. lia.
Qed.

Lemma C9_playlist_entries_witness :
  lines (generateMasterPlaylist (buildLadder "/tmp/v1/out" 1080)) !! 5%nat =
    Some ("#EXT-X-STREAM-INF:BANDWIDTH=" +:+ zstr ((Z.of_nat 2 + 1) * 250000)
          +:+ ",RESOLUTION=" +:+ zstr 1280 +:+ "x" +:+ zstr 720) /\
  lines (generateMasterPlaylist (buildLadder "/tmp/v1/out" 1080)) !! 6%nat =
    Some "720p/index.m3u8".
Proof.
  apply (proj1 (proj2 (proj2 (C9_playlist_entries (buildLadder "/tmp/v1/out" 1080))))
           2%nat (mkRung "/tmp/v1/out/720p" 720 1280)).
  reflexivity.
Defined.

Lemma record_after_writes (key : string) (l : list (list (string * string))) s :
  default ∅ (foldl apply_write s (map (pair key) l) !! key) = foldl apply_fields (default ∅ (s !! key)) l.
Proof.
  revert s. induction l as [|fs l IH]; intros s; [reflexivity|]. simpl.
  rewrite IH. unfold apply_write. simpl. by rewrite lookup_insert_eq.
Qed.

(** C10: the [catch] block's write sets [status] and [error] and nothing
    else; the record keeps the fields of the last milestone reached. *)
Theorem C10_error_write_frame env job st s m :
  processJob_try env job st = (s, RThrow m) -> env_hset env HError = None ->
  let key := status_key (videoId job) in
  let s' := (processJob_catch env job m s).1 in
  (processJob_catch env job m s).2 = ROk () /\
  record_of key s' !! "status" = Some "error" /\
  record_of key s' !! "error" = Some m /\
  (forall f, f <> "status" -> f <> "error" -> record_of key s' !! f = record_of key s !! f) /\
  (forall k, k <> key -> st_store s' !! k = st_store s !! k) /\
  exists n, (n < 5)%nat /\
    record_of key s = foldl apply_fields (record_of key st)
                        (take n (milestone_writes (env_master_url env) (env_urls_json env))).
Proof.
  intros HT HE key s'.
  assert (Hs' : record_of key s' = apply_fields (record_of key s) (error_fields m) /\
                forall k, k <> key -> st_store s' !! k = st_store s !! k).
  { unfold s', processJob_catch, hset, record_of. rewrite HE. simpl. split.
    - fold key. by rewrite lookup_insert_eq.
    - intros k Hk. apply lookup_insert_ne. unfold key in Hk. congruence. }
  destruct Hs' as [Hr Hk].
  split; [unfold processJob_catch, hset; by rewrite HE|].
  rewrite Hr. destruct (error_record (record_of key s) m) as [E1 E2].
  split; [exact E1|]. split; [exact E2|]. split; [|split; [exact Hk|]].
  - intros f Hf1 Hf2. unfold apply_fields, error_fields. simpl.
    rewrite !lookup_insert_ne by congruence. reflexivity.
  - apply try_writes in HT as (n & Hn & (_ & W2 & _) & Hr5).
    assert (n <> 5%nat) by (intros E; apply Hr5 in E; discriminate).
    exists n. split; [lia|]. unfold record_of. rewrite W2. apply record_after_writes.
Qed.

Lemma C10_error_write_frame_witness :
  let m := "EACCES: permission denied, mkdir '/tmp/v1/out/360p'" in
  let s := (processJob_try env_mkdir_fails job_v1 st_v1).1 in
  let key := status_key (videoId job_v1) in
  let s' := (processJob_catch env_mkdir_fails job_v1 m s).1 in
  (processJob_catch env_mkdir_fails job_v1 m s).2 = ROk () /\
  record_of key s' !! "status" = Some "error" /\
  record_of key s' !! "error" = Some m /\
  (forall f, f <> "status" -> f <> "error" -> record_of key s' !! f = record_of key s !! f) /\
  (forall k, k <> key -> st_store s' !! k = st_store s !! k) /\
  exists n, (n < 5)%nat /\
    record_of key s = foldl apply_fields (record_of key st_v1)
      (take n (milestone_writes (env_master_url env_mkdir_fails) (env_urls_json env_mkdir_fails))).
Proof.
  apply C10_error_write_frame; [vm_compute; reflexivity | reflexivity].
Defined.

Lemma C2_urls_iff_completed_witness :
  url_iff (record_of (status_key (videoId job_v1))
             (o_st (runJob env_ok "1" job_v1 "2024-01-01T00:00:00.000Z" st_v1))).
Proof.
  apply (proj2 (proj2 (C2_urls_iff_completed env_ok "1" job_v1 "2024-01-01T00:00:00.000Z" st_v1))).
  reflexivity.
Defined.



(** Unless the process crashes, the [finally] block runs; when every
    [fs.rm] succeeds no directory under the three removed paths is left. *)
Theorem processJob_cleans_up env job st s r :
  processJob env job st = (s, r) -> (forall m, r <> RCrash m) -> (forall p, env_rm env p = None) ->
  forall d, d ∈ st_dirs s ->
    under (uploadDir job) d = false /\ under (inputDir job) d = false /\
    under ("/tmp/" +:+ videoId job) d = false.
Proof.
  intros H Hr Hrm. unfold processJob, finally in H.
  destruct (catch _ _ st) as [s1 r1].
  destruct r1 as [[]|m|m]; [| |injection H as _ <-; by destruct (Hr m)];
    unfold cleanup, rm_logged, mbind, M_bind in H; rewrite !Hrm in H; simpl in H;
    injection H as <- _; intros d Hd; simpl in Hd; rewrite !elem_of_filter in Hd; naive_solver.
Qed.

Lemma processJob_cleans_up_witness :
  under (uploadDir job_v1) "/tmp" = false /\ under (inputDir job_v1) "/tmp" = false /\
  under ("/tmp/" +:+ videoId job_v1) "/tmp" = false.
Proof.
  apply (processJob_cleans_up env_ok job_v1 st_v1 (processJob env_ok job_v1 st_v1).1
           (processJob env_ok job_v1 st_v1).2).
  - vm_compute. reflexivity.
  - intros m. vm_compute. discriminate.
  - reflexivity.
  - assert (E : bool_decide ("/tmp" ∈ st_dirs (processJob env_ok job_v1 st_v1).1) = true)
      by (vm_compute; reflexivity).
    exact (bool_decide_eq_true_1 _ E).
Defined.

(* ================================================================== *)
(** * Lemmas about the HTTP server *)

Lemma str_app_cons c a b : String c a +:+ b = String c (a +:+ b).
Proof. reflexivity. Qed.
Lemma str_app_nil_l b : "" +:+ b = b.
Proof. reflexivity. Qed.
Ltac sapp := rewrite ?str_app_cons, ?str_app_nil_l.


Lemma lac_app a b :
  String.list_ascii_of_string (a +:+ b) = String.list_ascii_of_string a ++ String.list_ascii_of_string b.
Proof. induction a as [|c a IH]; sapp; simpl; [done | by rewrite IH]. Qed.

Lemma lac_length s : length (String.list_ascii_of_string s) = String.length s.
Proof. induction s; simpl; auto. Qed.

Lemma slength_app a b : String.length (a +:+ b) = (String.length a + String.length b)%nat.
Proof. induction a; sapp; simpl; auto. Qed.

Lemma get_lookup n s : String.get n s = String.list_ascii_of_string s !! n.
Proof. revert n; induction s; intros [|n]; simpl; auto. Qed.

Lemma substring_app_l a s m : String.substring (String.length a) m (a +:+ s) = String.substring 0 m s.
Proof. induction a; sapp; simpl; auto. Qed.

Lemma substring_full s : String.substring 0 (String.length s) s = s.
Proof. induction s as [|c s IH]; simpl; [done | by rewrite IH]. Qed.

Lemma substring_prefix a s : String.substring 0 (String.length a) (a +:+ s) = a.
Proof. induction a as [|c a IH]; sapp; simpl; [by destruct s | by rewrite IH]. Qed.

Lemma str_app_nil s : s +:+ "" = s.
Proof. induction s as [|c s IH]; [done|]. by rewrite str_app_cons, IH. Qed.

Lemma has_char_app c a b : has_char c (a +:+ b) = has_char c a || has_char c b.
Proof. induction a as [|d a IH]; sapp; simpl; [done | rewrite IH; apply orb_assoc]. Qed.

Lemma split_on_ne c s : split_on c s <> [].
Proof.
  induction s as [|d s IH]; simpl; [done|].
  destruct (Ascii.eqb d c); [done|]. destruct (split_on c s); done.
Qed.

Lemma split_on_app c a b : split_on c (a +:+ String c b) = split_on c a ++ split_on c b.
Proof.
  induction a as [|d a IH]; sapp; simpl.
  - by rewrite Ascii.eqb_refl.
  - rewrite IH. destruct (Ascii.eqb d c); [done|].
    pose proof (split_on_ne c a). destruct (split_on c a); done.
Qed.

Lemma split_on_plain c a : has_char c a = false -> split_on c a = [a].
Proof.
  induction a as [|d a IH]; simpl; [done|].
  intros H. apply orb_false_iff in H as [H1 H2]. rewrite H1, IH; done.
Qed.

Lemma sconcat_cons sep x l : l <> [] -> String.concat sep (x :: l) = x +:+ sep +:+ String.concat sep l.
Proof. destruct l; done. Qed.

Lemma sconcat_app sep l1 l2 :
  l1 <> [] -> l2 <> [] -> String.concat sep (l1 ++ l2) = String.concat sep l1 +:+ sep +:+ String.concat sep l2.
Proof.
  intros H1 H2. induction l1 as [|x l1 IH]; [done|].
  destruct l1 as [|y l1].
  - simpl. by apply sconcat_cons.
  - rewrite <- app_comm_cons, sconcat_cons by (simpl; done).
    rewrite IH by done. rewrite (sconcat_cons sep x (y :: l1)) by done.
    by rewrite !str_app_assoc.
Qed.

Lemma split_concat segs :
  segs <> [] -> Forall (fun s => has_char slash s = false) segs ->
  split_on slash (String.concat "/" segs) = segs.
Proof.
  induction segs as [|x segs IH]; [done|]. intros _ HF.
  apply Forall_cons in HF as [Hx HF].
  destruct segs as [|y segs].
  - simpl. by apply split_on_plain.
  - rewrite sconcat_cons by done.
    change ("/" +:+ String.concat "/" (y :: segs)) with (String slash (String.concat "/" (y :: segs))).
    rewrite split_on_app, split_on_plain, IH by done. done.
Qed.

Lemma resolve_plain abs stk segs :
  Forall (fun s => plain s = true) segs -> foldl (resolve_seg abs) stk segs = rev segs ++ stk.
Proof.
  revert stk. induction segs as [|x segs IH]; intros stk HF; [done|].
  apply Forall_cons in HF as [Hx HF]. simpl.
  unfold plain in Hx. apply andb_true_iff in Hx as [Hx H4]. apply andb_true_iff in Hx as [Hx H3].
  apply andb_true_iff in Hx as [H1 H2]. apply negb_true_iff in H1, H3, H4.
  unfold resolve_seg. rewrite H1, H3, H4. simpl. rewrite IH by done.
  by rewrite <- app_assoc.
Qed.

Lemma ends_slash_cons c s : s <> "" -> ends_slash (String c s) = ends_slash s.
Proof. destruct s; [done|]. intros _. reflexivity. Qed.

Lemma ends_slash_app a b : b <> "" -> ends_slash (a +:+ b) = ends_slash b.
Proof.
  intros Hb. induction a as [|c a IH]; [done|].
  rewrite str_app_cons, ends_slash_cons; [done|]. destruct a, b; done.
Qed.

Lemma ends_slash_plain s : has_char slash s = false -> ends_slash s = false.
Proof.
  induction s as [|c s IH]; [done|]. simpl. intros H. apply orb_false_iff in H as [H1 H2].
  destruct s as [|d s].
  - unfold ends_slash. simpl. done.
  - rewrite ends_slash_cons by done. by apply IH.
Qed.

Lemma concat_last sep segs :
  segs <> [] -> exists pre x, String.concat sep segs = pre +:+ x /\ In x segs.
Proof.
  induction segs as [|x segs IH]; [done|]. intros _.
  destruct segs as [|y segs].
  - exists "", x. simpl. split; [done | by left].
  - destruct IH as (pre & z & E & Hz); [done|].
    exists (x +:+ sep +:+ pre), z. rewrite sconcat_cons, E by done.
    split; [by rewrite !str_app_assoc | by right].
Qed.

Lemma plain_ne s : plain s = true -> s <> "".
Proof. intros H ->. done. Qed.

Lemma plain_noslash s : plain s = true -> has_char slash s = false.
Proof. unfold plain. intros H. destruct (has_char slash s); [|done]. simpl in H. by rewrite andb_false_r in H. Qed.

Lemma concat_ne sep segs : Forall (fun s => plain s = true) segs -> segs <> [] -> String.concat sep segs <> "".
Proof.
  intros HF Hne. destruct segs as [|x segs]; [done|].
  apply Forall_cons in HF as [Hx _]. destruct segs.
  - simpl. by apply plain_ne.
  - rewrite sconcat_cons by done. destruct x; [done|]. done.
Qed.

Lemma normalize_abs_plain segs :
  segs <> [] -> Forall (fun s => plain s = true) segs ->
  normalize ("/" +:+ String.concat "/" segs) = "/" +:+ String.concat "/" segs.
Proof.
  intros Hne HF. unfold normalize.
  pose proof (concat_ne "/" segs HF Hne) as Hc.
  assert (HF' : Forall (fun s => has_char slash s = false) segs).
  { apply Forall_forall. intros s Hs. apply plain_noslash. exact (proj1 (Forall_forall _ _) HF s Hs). }
  set (c := String.concat "/" segs) in *.
  change ("/" +:+ c) with (String slash c).
  assert (Hend : ends_slash (String slash c) = false).
  { rewrite ends_slash_cons by done. destruct (concat_last "/" segs Hne) as (pre & x & E & Hx).
    unfold c. rewrite E, ends_slash_app.
    - apply ends_slash_plain, plain_noslash. exact (proj1 (Forall_forall _ _) HF x (proj2 (list_elem_of_In _ _) Hx)).
    - apply plain_ne. exact (proj1 (Forall_forall _ _) HF x (proj2 (list_elem_of_In _ _) Hx)). }
  rewrite Hend. cbn [String.eqb starts_slash split_on]. rewrite Ascii.eqb_refl.
  cbn [foldl]. replace (resolve_seg true [] "") with (@nil string) by reflexivity.
  unfold c. rewrite split_concat by done. fold c.
  rewrite resolve_plain by done. rewrite app_nil_r, rev_involutive.
  fold c. destruct (String.eqb_spec c ""); [done|].
  cbn. by rewrite str_app_nil.
Qed.

Lemma path_join_abs_plain segs more :
  segs <> [] -> Forall (fun s => plain s = true) (segs ++ more) ->
  path_join (("/" +:+ String.concat "/" segs) :: more) = "/" +:+ String.concat "/" (segs ++ more).
Proof.
  intros Hne HF. unfold path_join.
  assert (Hf : List.filter (fun a => negb (String.eqb a "")) more = more).
  { apply Forall_app in HF as [_ HF]. clear Hne. induction more as [|y more IH]; [done|].
    apply Forall_cons in HF as [Hy HF]. simpl. apply plain_ne in Hy.
    destruct (String.eqb_spec y ""); [done|]. simpl. by rewrite IH. }
  cbn [List.filter]. rewrite Hf.
  change ("/" +:+ String.concat "/" segs) with (String "/" (String.concat "/" segs)).
  cbn [String.eqb negb].
  change (String "/" (String.concat "/" segs)) with ("/" +:+ String.concat "/" segs).
  destruct more as [|y more].
  - rewrite app_nil_r. simpl. by apply normalize_abs_plain; rewrite app_nil_r in HF.
  - rewrite sconcat_cons by done. rewrite str_app_assoc, <- sconcat_app by done.
    apply normalize_abs_plain; [by destruct segs | done].
Qed.

Lemma has_char_forall c s :
  has_char c s = false <-> Forall (fun d => Ascii.eqb d c = false) (String.list_ascii_of_string s).
Proof.
  induction s as [|d s IH]; simpl; [split; [constructor | done]|].
  rewrite orb_false_iff, Forall_cons, IH. done.
Qed.

Ltac zeqs :=
  repeat match goal with
  | |- context [?x =? ?y] =>
      (rewrite (proj2 (Z.eqb_neq x y)) by lia) || (rewrite (proj2 (Z.eqb_eq x y)) by lia)
  end.

Lemma ext_scan_e l r i sp en ms pre :
  Forall (fun c => Ascii.eqb c slash = false /\ Ascii.eqb c "." = false) l -> en <> -1 ->
  ext_scan (l ++ r) i (-1) sp en ms pre = ext_scan r (i - Z.of_nat (length l)) (-1) sp en ms pre.
Proof.
  revert i. induction l as [|c l IH]; intros i HF Hen.
  - simpl. by rewrite Z.sub_0_r.
  - apply Forall_cons in HF as [[H1 H2] HF]. cbn [app ext_scan]. rewrite H1, H2.
    destruct (Z.eqb_spec en (-1)); [done|]. cbn.
    rewrite IH by done. f_equal. simpl length. lia.
Qed.

Lemma ext_scan_b l i sd sp en ms pre :
  Forall (fun c => Ascii.eqb c slash = false) l -> sd <> -1 -> en <> -1 ->
  ext_scan l i sd sp en ms pre =
    (sd, sp, en, match last l with Some c => if Ascii.eqb c "." then 1 else -1 | None => pre end).
Proof.
  revert i pre. induction l as [|c l IH]; intros i pre HF Hsd Hen; [done|].
  apply Forall_cons in HF as [H1 HF]. cbn [ext_scan]. rewrite H1.
  destruct (Z.eqb_spec en (-1)); [done|]. destruct (Z.eqb_spec sd (-1)); [done|].
  assert (Hstep : (if Ascii.eqb c "." then if false then (i, pre) else if pre =? 1 then (sd, pre) else (sd, 1)
                   else if false then (sd, pre) else (sd, -1))
                  = (sd, if Ascii.eqb c "." then 1 else -1)).
  { destruct (Ascii.eqb c "."); [|done]. destruct (Z.eqb_spec pre 1); subst; done. }
  rewrite Hstep. cbn zeta iota beta. rewrite IH by done.
  rewrite (last_cons c l). destruct (last l); reflexivity.
Qed.

Lemma extname_dot b e :
  b <> "" -> has_char slash b = false -> e <> "" -> has_char slash e = false -> has_char "." e = false ->
  extname (b +:+ String "." e) = String "." e.
Proof.
  intros Hb Hbs He Hes Hed. unfold extname, slen.
  rewrite lac_app. cbn [String.list_ascii_of_string]. rewrite rev_app_distr.
  change (?x :: String.list_ascii_of_string e) with ([x] ++ String.list_ascii_of_string e).
  rewrite rev_app_distr. cbn [rev app].
  pose proof (proj1 (has_char_forall _ _) Hbs) as FB.
  pose proof (proj1 (has_char_forall _ _) Hes) as FE1.
  pose proof (proj1 (has_char_forall _ _) Hed) as FE2.
  assert (FE : Forall (fun c => Ascii.eqb c slash = false /\ Ascii.eqb c "." = false)
                 (rev (String.list_ascii_of_string e))).
  { apply Forall_rev. apply Forall_and; done. }
  rewrite slength_app. cbn [String.length].
  pose proof (lac_length e) as Le. pose proof (lac_length b) as Lb.
  assert (Hel : (0 < String.length e)%nat) by (destruct e; [done | simpl; lia]).
  assert (Hbl : (0 < String.length b)%nat) by (destruct b; [done | simpl; lia]).
  destruct (rev (String.list_ascii_of_string e)) as [|c E'] eqn:HE.
  { apply (f_equal length) in HE. rewrite length_rev in HE. simpl in HE. lia. }
  apply (f_equal length) in HE. rewrite length_rev in HE. simpl in HE.
  apply Forall_cons in FE as [[Hc1 Hc2] FE].
  cbn [app ext_scan]. rewrite Hc1, Hc2. cbn.
  rewrite <- app_assoc, ext_scan_e by (done || lia).
  cbn [ext_scan]. replace (Ascii.eqb "." slash) with false by reflexivity.
  cbn. zeqs. cbn.
  rewrite ext_scan_b.
  2: { apply Forall_rev. done. }
  2: lia.
  2: lia.
  set (pb := match last (rev (String.list_ascii_of_string b)) with
             | Some c0 => if Ascii.eqb c0 "." then 1 else -1 | None => 0 end).
  assert (Hpb : pb = 1 \/ pb = -1).
  { unfold pb. destruct (rev (String.list_ascii_of_string b)) as [|x l] eqn:HB.
    - apply (f_equal length) in HB. rewrite length_rev in HB. simpl in HB. lia.
    - destruct (last (x :: l)) eqn:Hl; [destruct (Ascii.eqb a "."); lia|].
      apply last_None in Hl. done. }
  destruct Hpb as [-> | ->]; zeqs; cbn;
  unfold js_slice;
  (replace (Z.to_nat (Z.of_nat (String.length b + S (String.length e)) - 1 - 1 - Z.of_nat (length E')))
    with (String.length b) by lia);
  (replace (Z.to_nat (Z.of_nat (String.length b + S (String.length e)) - 1 + 1
                     - (Z.of_nat (String.length b + S (String.length e)) - 1 - 1 - Z.of_nat (length E'))))
    with (String.length (String "." e)) by (simpl; lia));
  by rewrite substring_app_l, substring_full.
Qed.

Lemma char_at_lookup s k : 0 <= k -> char_at s k = String.list_ascii_of_string s !! Z.to_nat k.
Proof. intros _. unfold char_at. apply get_lookup. Qed.

Lemma base_scan_noext s l i st en ms ext fn :
  Forall (fun c => Ascii.eqb c slash = false) l -> ext < 0 -> fn <> -1 ->
  base_scan s l i st en ms ext fn = (st, en, fn).
Proof.
  revert i. induction l as [|c l IH]; intros i HF Hext Hfn; [done|].
  apply Forall_cons in HF as [Hc HF]. cbn [base_scan]. rewrite Hc. zeqs.
  replace (0 <=? ext) with false by lia. cbn. by apply IH.
Qed.

Lemma rev_take_S {A} (l : list A) k x : l !! k = Some x -> rev (take (S k) l) = x :: rev (take k l).
Proof. intros H. by rewrite (take_S_r _ _ _ H), rev_unit. Qed.

Lemma base_scan_match s k rest i st en ms fn :
  (S k <= length (String.list_ascii_of_string s))%nat ->
  Forall (fun c => Ascii.eqb c slash = false) (String.list_ascii_of_string s) -> Z.of_nat k <= i ->
  base_scan s (rev (take (S k) (String.list_ascii_of_string s)) ++ rest) i st en ms (Z.of_nat k) fn
  = base_scan s rest (i - Z.of_nat (S k)) st (i - Z.of_nat k) (if fn =? -1 then false else ms) (-1)
      (if fn =? -1 then i + 1 else fn).
Proof.
  intros Hk HF. revert i en ms fn. induction k as [|k IH]; intros i en ms fn Hi.
  - destruct (lookup_lt_is_Some_2 (String.list_ascii_of_string s) 0) as [x Hx]; [lia|].
    rewrite (rev_take_S _ _ _ Hx). cbn [take rev app base_scan].
    assert (Hxs : Ascii.eqb x slash = false).
    { apply (proj1 (Forall_lookup _ _) HF 0%nat). done. }
    rewrite Hxs. change (Z.of_nat 0) with 0. unfold char_at. rewrite get_lookup.
    change (Z.to_nat 0) with 0%nat. rewrite Hx.
    rewrite bool_decide_eq_true_2 by done. cbn.
    change (0 - 1) with (-1). rewrite Z.eqb_refl. cbn [take rev app]. f_equal; lia.
  - destruct (lookup_lt_is_Some_2 (String.list_ascii_of_string s) (S k)) as [x Hx]; [lia|].
    rewrite (rev_take_S _ _ _ Hx). cbn [app base_scan].
    assert (Hxs : Ascii.eqb x slash = false).
    { apply (proj1 (Forall_lookup _ _) HF (S k)). done. }
    rewrite Hxs. rewrite char_at_lookup by lia. rewrite Nat2Z.id, Hx.
    rewrite bool_decide_eq_true_2 by done.
    rewrite (proj2 (Z.leb_le 0 (Z.of_nat (S k)))) by lia. cbn zeta iota beta.
    replace (Z.of_nat (S k) - 1) with (Z.of_nat k) by lia. zeqs.
    rewrite IH by lia. zeqs.
    destruct (Z.eqb_spec fn (-1)).
    + zeqs. f_equal; lia.
    + zeqs. f_equal; lia.
Qed.

Lemma slen_pos s : s <> "" -> 0 < slen s.
Proof. destruct s; [done|]. unfold slen. simpl. lia. Qed.

Lemma basename_suffix b s :
  b <> "" -> s <> "" -> has_char slash (b +:+ s) = false -> basename (b +:+ s) s = b.
Proof.
  intros Hb Hs Hf. rewrite has_char_app in Hf. apply orb_false_iff in Hf as [Hbs Hss].
  pose proof (slen_pos b Hb) as Pb. pose proof (slen_pos s Hs) as Ps.
  unfold basename, slen in *. rewrite slength_app.
  rewrite (proj2 (Z.ltb_lt _ _)) by lia. rewrite (proj2 (Z.leb_le _ _)) by lia. cbn [andb].
  destruct (String.eqb_spec s (b +:+ s)) as [E|_].
  { apply (f_equal String.length) in E. rewrite slength_app in E. lia. }
  rewrite lac_app, rev_app_distr.
  pose proof (lac_length s) as Ls. pose proof (lac_length b) as Lb.
  set (k := pred (String.length s)).
  assert (Hk : String.length s = S k) by (unfold k; lia).
  rewrite <- (take_ge (String.list_ascii_of_string s) (S k)) at 1 by lia.
  replace (Z.of_nat (String.length s) - 1) with (Z.of_nat k) by lia.
  rewrite base_scan_match.
  2: lia.
  2: by apply has_char_forall.
  2: lia.
  rewrite Z.eqb_refl. rewrite base_scan_noext.
  2: by apply Forall_rev, has_char_forall.
  2: lia.
  2: lia.
  zeqs. unfold js_slice.
  replace (Z.to_nat 0) with 0%nat by reflexivity.
  replace (Z.to_nat (Z.of_nat (String.length b + String.length s) - 1 - Z.of_nat k - 0))
    with (String.length b) by lia.
  apply substring_prefix.
Qed.

Lemma base_scan_mismatch s l k i st en ms fn :
  (k <= length (String.list_ascii_of_string s))%nat ->
  ~ (rev (take k (String.list_ascii_of_string s)) `prefix_of` l) ->
  Forall (fun c => Ascii.eqb c slash = false) l -> en = -1 -> Z.of_nat (length l) <= i + 1 ->
  let '(st', en', fn') := base_scan s l i st en ms (Z.of_nat k - 1) fn in
  st' = st /\ (en' = -1 \/ en' = fn') /\ (fn <> -1 -> fn' = fn) /\ (fn = -1 -> l <> [] -> fn' = i + 1).
Proof.
  revert k i ms fn. induction l as [|c l IH]; intros k i ms fn Hk Hp HF Hen Hl.
  { cbn. subst. split; [done|]. split; [by left|]. split; [done|]. done. }
  apply Forall_cons in HF as [Hc HF]. cbn [base_scan]. rewrite Hc.
  destruct k as [|k].
  { exfalso. apply Hp. simpl. apply prefix_nil. }
  destruct (lookup_lt_is_Some_2 (String.list_ascii_of_string s) k) as [x Hx]; [lia|].
  rewrite (rev_take_S _ _ _ Hx) in Hp.
  rewrite (proj2 (Z.leb_le 0 (Z.of_nat (S k) - 1))) by lia.
  rewrite char_at_lookup by lia. replace (Z.to_nat (Z.of_nat (S k) - 1)) with k by lia. rewrite Hx.
  assert (Hfn' : (if fn =? -1 then i + 1 else fn) <> -1 /\
                 (fn <> -1 -> (if fn =? -1 then i + 1 else fn) = fn) /\
                 (fn = -1 -> (if fn =? -1 then i + 1 else fn) = i + 1)).
  { simpl length in Hl. destruct (Z.eqb_spec fn (-1)); (split; [lia | split]); intros; lia. }
  set (fn1 := if fn =? -1 then i + 1 else fn) in *.
  destruct Hfn' as (Hfn1 & Hfn2 & Hfn3).
  destruct (decide (c = x)) as [<-|Hne].
  - rewrite bool_decide_eq_true_2 by done. cbn zeta iota beta.
    destruct k as [|k].
    { exfalso. apply Hp. simpl. apply prefix_cons, prefix_nil. }
    replace (Z.of_nat (S (S k)) - 1 - 1) with (Z.of_nat (S k) - 1) by lia. zeqs.
    assert (Hp' : ~ (rev (take (S k) (String.list_ascii_of_string s)) `prefix_of` l)).
    { intros P. apply Hp. by apply prefix_cons. }
    specialize (IH (S k) (i - 1) (if fn =? -1 then false else ms) fn1 ltac:(lia) Hp' HF Hen ltac:(simpl length in Hl; lia)).
    destruct (base_scan s l (i - 1) st en (if fn =? -1 then false else ms) (Z.of_nat (S k) - 1) fn1)
      as [[st' en'] fn'].
    destruct IH as (-> & Hen' & Hf1 & _). specialize (Hf1 Hfn1).
    split; [done|]. split; [done|]. split.
    + intros H. rewrite Hf1. by apply Hfn2.
    + intros H _. rewrite Hf1. by apply Hfn3.
  - rewrite bool_decide_eq_false_2 by congruence. cbn zeta iota beta.
    rewrite base_scan_noext by (done || lia).
    split; [done|]. split; [by right|]. split; [done|]. intros H _. by apply Hfn3.
Qed.

Lemma basename_not_suffix f s :
  has_char slash f = false -> s <> "" -> (String.length s <= String.length f)%nat ->
  (forall b, f <> b +:+ s) -> basename f s = f.
Proof.
  intros Hf Hs Hl Hn. pose proof (slen_pos s Hs) as Ps.
  unfold basename, slen in *.
  rewrite (proj2 (Z.ltb_lt _ _)) by lia. rewrite (proj2 (Z.leb_le _ _)) by lia. cbn [andb].
  destruct (String.eqb_spec s f) as [E|_].
  { exfalso. apply (Hn ""). by rewrite E. }
  pose proof (lac_length s) as Ls. pose proof (lac_length f) as Lf.
  assert (Hp : ~ (rev (take (String.length s) (String.list_ascii_of_string s))
                  `prefix_of` rev (String.list_ascii_of_string f))).
  { rewrite take_ge by lia. intros [t Ht].
    apply (Hn (String.string_of_list_ascii (rev t))).
    rewrite <- (String.string_of_list_ascii_of_string f).
    apply (f_equal (@rev ascii)) in Ht. rewrite rev_involutive, rev_app_distr, rev_involutive in Ht.
    rewrite Ht. clear. induction (rev t) as [|c l IH]; simpl; [by rewrite String.string_of_list_ascii_of_string|].
    by rewrite IH. }
  pose proof (base_scan_mismatch s (rev (String.list_ascii_of_string f)) (String.length s)
                (Z.of_nat (String.length f) - 1) 0 (-1) true (-1) ltac:(lia) Hp
                ltac:(by apply Forall_rev, has_char_forall) eq_refl ltac:(rewrite length_rev; lia)) as H.
  destruct (base_scan s (rev (String.list_ascii_of_string f)) (Z.of_nat (String.length f) - 1) 0 (-1)
              true (Z.of_nat (String.length s) - 1) (-1)) as [[st' en'] fn'].
  destruct H as (-> & Hen & _ & Hfn).
  assert (Hne : rev (String.list_ascii_of_string f) <> []).
  { intros E. apply (f_equal length) in E. rewrite length_rev in E. simpl in E. lia. }
  specialize (Hfn eq_refl Hne). replace (Z.of_nat (String.length f) - 1 + 1) with (Z.of_nat (String.length f)) in Hfn by lia.
  subst fn'.
  assert (Hend : (if 0 =? en' then Z.of_nat (String.length f) else if en' =? -1 then Z.of_nat (String.length f) else en')
                 = Z.of_nat (String.length f)).
  { destruct Hen as [-> | ->]; zeqs; done. }
  rewrite Hend. unfold js_slice. replace (Z.to_nat 0) with 0%nat by reflexivity.
  rewrite Z.sub_0_r, Nat2Z.id. apply substring_full.
Qed.

Lemma lower_char_slash c : Ascii.eqb (lower_char c) slash = Ascii.eqb c slash.
Proof. destruct c as [[] [] [] [] [] [] [] []]; reflexivity. Qed.

Lemma lower_char_dot c : Ascii.eqb (lower_char c) "." = Ascii.eqb c ".".
Proof. destruct c as [[] [] [] [] [] [] [] []]; reflexivity. Qed.

Lemma has_char_lower_slash s : has_char slash (to_lower s) = has_char slash s.
Proof. induction s as [|c s IH]; simpl; [done|]. by rewrite lower_char_slash, IH. Qed.

Lemma has_char_lower_dot s : has_char "." (to_lower s) = has_char "." s.
Proof. induction s as [|c s IH]; simpl; [done|]. by rewrite lower_char_dot, IH. Qed.

Lemma to_lower_length s : String.length (to_lower s) = String.length s.
Proof. induction s; simpl; auto. Qed.

(** X4: for a file name [b.e] (stem and extension without a slash, the
    extension without a dot) the saved name is [b-<uuid>.e'] with [e'] the
    extension in lower case.  [path.basename] strips the suffix only when it
    matches exactly, so an extension with capitals stays in the stem:
    clip.MP4 is saved as clip.MP4-<uuid>.mp4. *)
Theorem unique_filename_shape b e uuid :
  b <> "" -> has_char slash b = false -> e <> "" -> has_char slash e = false -> has_char "." e = false ->
  unique_filename (b +:+ String "." e) uuid =
    (if String.eqb (to_lower e) e then b else b +:+ String "." e) +:+ "-" +:+ uuid +:+ String "." (to_lower e).
Proof.
  intros Hb Hbs He Hes Hed. unfold unique_filename. rewrite extname_dot by done.
  change (to_lower (String "." e)) with (String "." (to_lower e)).
  destruct (String.eqb_spec (to_lower e) e) as [E|E].
  - rewrite E, basename_suffix; [done | done | done |].
    rewrite has_char_app, Hbs. simpl. done.
  - rewrite basename_not_suffix; [done | | done | |].
    + rewrite has_char_app, Hbs. simpl. done.
    + rewrite slength_app. simpl. rewrite to_lower_length. lia.
    + intros x Hx. apply (f_equal String.list_ascii_of_string) in Hx. rewrite !lac_app in Hx.
      apply app_inj_2 in Hx as [_ Hx].
      * apply E. cbn in Hx. injection Hx as Hx.
        rewrite <- (String.string_of_list_ascii_of_string (to_lower e)), <- Hx.
        apply String.string_of_list_ascii_of_string.
      * simpl. rewrite !lac_length, to_lower_length. done.
Qed.

Lemma has_char_substring c n m s :
  has_char c s = false -> has_char c (String.substring n m s) = false.
Proof.
  revert n m. induction s as [|d s IH]; intros n m H; [destruct n, m; done|].
  simpl in H. apply orb_false_iff in H as [H1 H2].
  destruct n as [|n], m as [|m]; simpl; try done.
  - by rewrite H1, IH.
  - by apply IH.
  - by apply IH.
Qed.

Lemma extname_noslash f : has_char slash f = false -> has_char slash (extname f) = false.
Proof.
  intros H. unfold extname.
  destruct (ext_scan _ _ _ _ _ _ _) as [[[a b] c] d].
  destruct (_ || _); [done|]. by apply has_char_substring.
Qed.

Lemma basename_noslash f x : has_char slash f = false -> has_char slash (basename f x) = false.
Proof.
  intros H. unfold basename.
  destruct (_ && _).
  - destruct (String.eqb x f); [done|].
    destruct (base_scan _ _ _ _ _ _ _ _) as [[a b] c]. by apply has_char_substring.
  - destruct (base_scan0 _ _ _ _ _) as [a b]. destruct (b =? -1); [done|]. by apply has_char_substring.
Qed.

Lemma last_part_nosep s : has_sep (last_part s) = false.
Proof.
  induction s as [|c s IH]; [done|]. simpl.
  destruct (has_sep s) eqn:E; [done|]. destruct (bb_sep c) eqn:F; [done|]. simpl. by rewrite F, E.
Qed.

Lemma nosep_noslash s : has_sep s = false -> has_char slash s = false.
Proof.
  induction s as [|c s IH]; [done|]. simpl. intros H. apply orb_false_iff in H as [H1 H2].
  unfold bb_sep in H1. apply orb_false_iff in H1 as [H1 _]. unfold slash. rewrite H1. simpl. by apply IH.
Qed.

Lemma bb_basename_noslash s : has_char slash (bb_basename s) = false.
Proof.
  unfold bb_basename. destruct (_ || _); [done|]. apply nosep_noslash, last_part_nosep.
Qed.

Lemma has_char_lookup_false c s s' : has_char c s = true -> has_char c s' = false -> s <> s'.
Proof. intros H1 H2 ->. congruence. Qed.

Lemma unique_plain f uuid :
  has_char slash f = false -> has_char slash uuid = false -> plain (unique_filename f uuid) = true.
Proof.
  intros Hf Hu. unfold unique_filename, plain.
  set (ext := to_lower (extname f)).
  assert (He : has_char slash ext = false) by (unfold ext; rewrite has_char_lower_slash; by apply extname_noslash).
  assert (Hd : has_char "-" (basename f ext +:+ "-" +:+ uuid +:+ ext) = true).
  { rewrite has_char_app. simpl. by rewrite orb_true_r. }
  rewrite !has_char_app, basename_noslash, Hu, He by done. simpl.
  destruct (String.eqb_spec (basename f ext +:+ "-" +:+ uuid +:+ ext) "") as [E|_].
  { rewrite E in Hd. done. }
  destruct (String.eqb_spec (basename f ext +:+ "-" +:+ uuid +:+ ext) ".") as [E|_].
  { rewrite E in Hd. done. }
  destruct (String.eqb_spec (basename f ext +:+ "-" +:+ uuid +:+ ext) "..") as [E|_].
  { rewrite E in Hd. done. }
  done.
Qed.

Lemma strip_date_noslash s : has_char slash s = false -> has_char slash (strip_date s) = false.
Proof.
  induction s as [|c s IH]; [done|]. simpl. intros H. apply orb_false_iff in H as [H1 H2].
  destruct (_ || _ || _); simpl; [by apply IH|]. by rewrite H1, IH.
Qed.

Lemma video_id_plain pe :
  has_char slash (pe_uuid pe 0) = false -> has_char slash (pe_iso_id pe) = false ->
  plain (post_video_id pe) = true.
Proof.
  intros Hu Hi. unfold post_video_id, plain.
  set (v := pe_uuid pe 0 +:+ "_" +:+ strip_date (pe_iso_id pe)).
  assert (Hd : has_char "_" v = true) by (unfold v; rewrite has_char_app; simpl; by rewrite orb_true_r).
  assert (Hs : has_char slash v = false) by (unfold v; rewrite !has_char_app, Hu, strip_date_noslash; done).
  rewrite Hs.
  destruct (String.eqb_spec v "") as [E|_]; [by rewrite E in Hd|].
  destruct (String.eqb_spec v ".") as [E|_]; [by rewrite E in Hd|].
  destruct (String.eqb_spec v "..") as [E|_]; [by rewrite E in Hd|].
  done.
Qed.

Lemma post_dirs_eq pe :
  has_char slash (pe_uuid pe 0) = false -> has_char slash (pe_iso_id pe) = false ->
  post_upload_dir pe = "/" +:+ String.concat "/" ["tmp"; post_video_id pe; "out"] /\
  post_input_dir pe = "/" +:+ String.concat "/" ["tmp"; post_video_id pe; "in"].
Proof.
  intros Hu Hi. pose proof (video_id_plain pe Hu Hi) as Hv.
  unfold post_upload_dir, post_input_dir.
  change "/tmp" with ("/" +:+ String.concat "/" ["tmp"]).
  split; apply path_join_abs_plain; try done; repeat constructor; done.
Qed.

Ltac ifcase := match goal with |- context [if ?c then _ else _] => destruct c end.

Lemma path_join_child segs name :
  segs <> [] -> Forall (fun s => plain s = true) segs -> plain name = true ->
  path_join [("/" +:+ String.concat "/" segs); name] = ("/" +:+ String.concat "/" segs) +:+ "/" +:+ name.
Proof.
  intros Hne HF Hn.
  assert (HF' : Forall (fun s => plain s = true) (segs ++ [name])) by (apply Forall_app; split; [done|by constructor]).
  rewrite (path_join_abs_plain segs [name] Hne HF').
  rewrite sconcat_app by done. simpl. rewrite <- str_app_assoc. done.
Qed.

Lemma foldl_inv {A B} (f : A -> B -> A) (P : A -> Prop) l a :
  P a -> (forall a b, P a -> P (f a b)) -> P (foldl f a l).
Proof. revert a. induction l as [|x l IH]; intros a Ha Hs; simpl; [done|]. apply IH; auto. Qed.

Lemma settle_inv dir st0 u st r :
  up_inv dir st0 (u, st) -> (r = None -> (up_streams u <> 0)%nat) -> up_inv dir st0 (settle u r, st).
Proof.
  intros (H1 & H2 & H3 & H4 & H5) Hr. simpl. split; [done|]. split; [done|]. split; [done|].
  split; [|done]. destruct (up_res u) as [o|] eqn:E; simpl.
  - intros E'. apply H4. congruence.
  - intros [= ->]. auto.
Qed.

Lemma bb_step_inv pe dir segs st0 us e :
  segs <> [] -> Forall (fun s => plain s = true) segs -> dir = "/" +:+ String.concat "/" segs ->
  (forall k, has_char slash (pe_uuid pe k) = false) ->
  up_inv dir st0 us -> up_inv dir st0 (bb_step pe dir us e).
Proof.
  intros Hne HF Hdir Hu Hi. destruct us as [u st].
  destruct e as [name raw mime data| |m|m|m|]; simpl.
  - destruct (up_done u); [done|]. destruct (negb _); [done|].
    destruct (option_map bb_basename raw) as [fn|] eqn:Efn;
      [|apply settle_inv; [done|discriminate]].
    destruct (String.eqb_spec fn "") as [_|Hfn]; [apply settle_inv; [done|discriminate]|].
    destruct (_ && _).
    + apply settle_inv; [|discriminate]. destruct Hi as (H1 & H2 & H3 & H4 & H5).
      simpl. split; [done|]. split; [by intros f [= <-]|].
      split; [intros E; destruct (H3 E); split; [done|eauto]|].
      split; [intros E; destruct (H4 E); split; [done|eauto]|]. done.
    + assert (Hfs : has_char slash fn = false).
      { destruct raw; simplify_eq/=. apply bb_basename_noslash. }
      pose proof (unique_plain fn (pe_uuid pe (up_uuids (set_orig u fn))) Hfs (Hu _)) as Hpl.
      set (q := unique_filename fn _) in *.
      assert (Hp : path_join [dir; q] = dir +:+ "/" +:+ q) by (subst dir; by apply path_join_child).
      rewrite Hp. destruct Hi as (H1 & H2 & H3 & H4 & H5 & H6 & H7 & H8 & H9).
      unfold up_inv, accept, set_orig, set_fs.
      cbn [up_saved up_orig up_streams up_res up_uuids up_done st_dirs st_store st_queue st_trace st_files].
      split; [|split; [|split; [|split]]].
      * intros p [= <-]. split; [eauto|]. rewrite lookup_insert, decide_True by done. eauto.
      * intros f [= <-]. done.
      * intros _. split; eauto.
      * intros _. split; eauto.
      * do 4 (split; [done|]). intros r Hr. destruct (String.eqb_spec r (dir +:+ "/" +:+ q)) as [->|Hne'].
        -- rewrite lookup_insert, decide_True by done. eauto.
        -- rewrite lookup_insert_ne by congruence. auto.
  - destruct (_ || _) eqn:E; [done|]. apply settle_inv; [done|]. intros _.
    apply orb_false_iff in E as [E _]. by apply Nat.eqb_neq in E.
  - destruct (_ || _); [done|]. apply settle_inv; [done|discriminate].
  - destruct (_ || _); [done|]. apply settle_inv; [done|discriminate].
  - destruct (up_done u); [done|]. apply settle_inv; [done|discriminate].
  - destruct (_ && _); [|done]. apply settle_inv; [done|discriminate].
Qed.

Lemma upload_inv pe segs st :
  segs <> [] -> Forall (fun s => plain s = true) segs ->
  (forall k, has_char slash (pe_uuid pe k) = false) ->
  up_inv ("/" +:+ String.concat "/" segs) st (upload pe ("/" +:+ String.concat "/" segs) st).
Proof.
  intros Hne HF Hu. unfold upload. apply foldl_inv.
  - simpl. split; [done|]. split; [done|]. split; [done|]. split; [done|]. do 4 (split; [done|]). done.
  - intros a b Ha. by eapply bb_step_inv.
Qed.

Lemma filter_plain segs :
  Forall (fun s => plain s = true) segs -> List.filter (fun s => negb (String.eqb s "")) segs = segs.
Proof.
  induction segs as [|x segs IH]; intros HF; [done|]. apply Forall_cons in HF as [Hx HF].
  simpl. destruct (String.eqb_spec x "") as [E|_]; [by apply plain_ne in Hx|]. simpl. by rewrite IH.
Qed.

Lemma ancestors_self segs :
  segs <> [] -> Forall (fun s => plain s = true) segs ->
  In ("/" +:+ String.concat "/" segs) (ancestors ("/" +:+ String.concat "/" segs)).
Proof.
  intros Hne HF. unfold ancestors.
  assert (Hs : split_on slash ("/" +:+ String.concat "/" segs) = "" :: segs).
  { change ("/" +:+ String.concat "/" segs) with (String slash (String.concat "/" segs)).
    simpl. rewrite split_concat; [done|done|]. eapply Forall_impl; [done|]. intros s. apply plain_noslash. }
  rewrite Hs. simpl. rewrite filter_plain by done.
  apply in_map_iff. exists (length segs). split.
  - by rewrite take_ge by lia.
  - apply in_seq. destruct segs; [done|simpl; lia].
Qed.

Lemma mkdir_p_dirs segs st :
  segs <> [] -> Forall (fun s => plain s = true) segs ->
  ("/" +:+ String.concat "/" segs) ∈ st_dirs (mkdir_p ("/" +:+ String.concat "/" segs) st).
Proof.
  intros Hne HF. unfold mkdir_p. simpl. apply elem_of_union_l, elem_of_list_to_set, list_elem_of_In.
  by apply ancestors_self.
Qed.

Lemma mkdir_p_mono p st : st_dirs st ⊆ st_dirs (mkdir_p p st).
Proof. unfold mkdir_p. simpl. set_solver. Qed.

Lemma upload_mono pe dir st : st_dirs st ⊆ st_dirs (upload pe dir st).2.
Proof.
  unfold upload. apply (foldl_inv _ (fun us => st_dirs st ⊆ st_dirs us.2)); [done|].
  intros [u st1] e H. destruct e; simpl; repeat (case_match; try done).
Qed.

(** X5: when [POST /process] answers 200 (the random ids hold no slash),
    the body is success, videoId and the message; the directories are
    /tmp/<videoId>/out and /tmp/<videoId>/in; the final state is the one
    where the job is enqueued, with a status record written, for a file
    of plain name under the input directory that exists, as do both
    directories. *)
Theorem post_accepted pe st st' body :
  (forall k, has_char slash (pe_uuid pe k) = false) -> has_char slash (pe_iso_id pe) = false ->
  post_process pe st = (st', Respond 200 body) ->
  body = [("success", JBool true); ("videoId", jstr (post_video_id pe));
          ("message", jstr "Video queued for processing.")] /\
  post_upload_dir pe = "/tmp/" +:+ post_video_id pe +:+ "/out" /\
  post_input_dir pe = "/tmp/" +:+ post_video_id pe +:+ "/in" /\
  exists st1 name, plain name = true /\
    st' = enqueue app_opts (pe_jid pe)
            {| videoId := post_video_id pe; inputFilePath := post_input_dir pe +:+ "/" +:+ name;
               uploadDir := post_upload_dir pe; inputDir := post_input_dir pe |}
            (pe_iso_created pe) st1 /\
    is_Some (st_files st1 !! (post_input_dir pe +:+ "/" +:+ name)) /\
    post_upload_dir pe ∈ st_dirs st1 /\ post_input_dir pe ∈ st_dirs st1 /\
    st_store st1 = st_store st /\ st_queue st1 = st_queue st.
Proof.
  intros Hu Hi H. destruct (post_dirs_eq pe (Hu 0%nat) Hi) as [Eo Ei].
  pose proof (video_id_plain pe (Hu 0%nat) Hi) as Hv.
  assert (Hsegs : forall x, plain x = true -> Forall (fun s => plain s = true) ["tmp"; post_video_id pe; x]).
  { intros x Hx. repeat constructor; done. }
  unfold post_process in H.
  destruct (negb _ && _); [discriminate|].
  destruct (pe_mkdir pe (post_upload_dir pe)); [discriminate|].
  destruct (pe_mkdir pe (post_input_dir pe)); [discriminate|].
  set (st1 := mkdir_p (post_input_dir pe) (mkdir_p (post_upload_dir pe) st)) in H.
  destruct (upload pe (post_input_dir pe) st1) as [u st2] eqn:Hup.
  pose proof (upload_inv pe ["tmp"; post_video_id pe; "in"] st1 ltac:(done) (Hsegs "in" eq_refl) Hu) as Hinv.
  rewrite <- Ei, Hup in Hinv. destruct Hinv as (H1 & H2 & H3 & H4 & H5 & H6 & H7 & H8 & H9).
  destruct (up_res u) as [[m|]|]; [discriminate| |discriminate].
  destruct (up_saved u) as [p|] eqn:Es, (up_orig u) as [f|]; try discriminate.
  destruct (_ || _); [discriminate|].
  destruct (pe_hset pe); [discriminate|].
  destruct (pe_add pe); [discriminate|].
  injection H as <- <-. split; [done|]. split; [rewrite Eo; reflexivity|]. split; [rewrite Ei; reflexivity|].
  destruct (H1 p eq_refl) as [[name [Hn ->]] Hf].
  exists st2, name. split; [done|]. split; [reflexivity|]. split; [done|].
  rewrite H5, H6, H7. unfold st1, mkdir_p. cbn [st_dirs st_store st_queue set_fs emit].
  split; [|split; [|done]].
  - rewrite Eo. apply elem_of_union_r, elem_of_union_l, elem_of_list_to_set, list_elem_of_In.
    apply ancestors_self; [done|apply Hsegs; done].
  - rewrite Ei. apply elem_of_union_l, elem_of_list_to_set, list_elem_of_In.
    apply ancestors_self; [done|apply Hsegs; done].
Qed.

Lemma unlink_frame pe p st :
  st_dirs (unlink_quiet pe p st) = st_dirs st /\ st_store (unlink_quiet pe p st) = st_store st /\
  st_queue (unlink_quiet pe p st) = st_queue st.
Proof. unfold unlink_quiet. by destruct (pe_unlink pe p). Qed.

(** X6: once both [fs.mkdir] calls succeed the handler removes no
    directory: whatever the reply, the directories that existed remain and
    both job directories exist (the failure paths only unlink the file). *)
Theorem post_dirs_persist pe st :
  (forall k, has_char slash (pe_uuid pe k) = false) -> has_char slash (pe_iso_id pe) = false ->
  (pe_ready pe = true \/ pe_connect pe = None) ->
  pe_mkdir pe (post_upload_dir pe) = None -> pe_mkdir pe (post_input_dir pe) = None ->
  st_dirs st ⊆ st_dirs (post_process pe st).1 /\
  post_upload_dir pe ∈ st_dirs (post_process pe st).1 /\
  post_input_dir pe ∈ st_dirs (post_process pe st).1.
Proof.
  intros Hu Hi Hc Mo Mi. destruct (post_dirs_eq pe (Hu 0%nat) Hi) as [Eo Ei].
  pose proof (video_id_plain pe (Hu 0%nat) Hi) as Hv.
  assert (Hsegs : forall x, plain x = true -> Forall (fun s => plain s = true) ["tmp"; post_video_id pe; x]).
  { intros x Hx. repeat constructor; done. }
  set (st1 := mkdir_p (post_input_dir pe) (mkdir_p (post_upload_dir pe) st)).
  assert (Hd : st_dirs st ⊆ st_dirs st1 /\ post_upload_dir pe ∈ st_dirs st1 /\ post_input_dir pe ∈ st_dirs st1).
  { unfold st1. split; [|split].
    - etrans; apply mkdir_p_mono.
    - eapply mkdir_p_mono. rewrite Eo. apply mkdir_p_dirs; [done|apply Hsegs; done].
    - rewrite Ei. apply mkdir_p_dirs; [done|apply Hsegs; done]. }
  unfold post_process.
  replace (negb (pe_ready pe) && bool_decide (is_Some (pe_connect pe))) with false
    by (destruct Hc as [-> | ->]; [done|by rewrite bool_decide_eq_false_2 by (intros [? ?]; done); destruct (pe_ready pe)]).
  rewrite Mo, Mi. fold st1.
  pose proof (upload_mono pe (post_input_dir pe) st1) as Hm.
  destruct (upload pe (post_input_dir pe) st1) as [u st2]. simpl in Hm.
  assert (Hd2 : st_dirs st ⊆ st_dirs st2 /\ post_upload_dir pe ∈ st_dirs st2 /\ post_input_dir pe ∈ st_dirs st2)
    by (destruct Hd as (? & ? & ?); split; [|split]; set_solver).
  repeat case_match; simpl; rewrite ?(proj1 (unlink_frame _ _ _)); simpl; done.
Qed.

(** X7: when [videoQueue.add] rejects, the reply is 500 Failed to enqueue
    job, yet the status record written just before stays, with status
    queued and its createdAt, and no job is in the queue. *)
Theorem post_enqueue_failure_leaves_queued pe st st' :
  post_process pe st = (st', fail_reply 500 "Failed to enqueue job") ->
  st_queue st' = st_queue st /\
  record_of (status_key (post_video_id pe)) st' !! "status" = Some "queued" /\
  record_of (status_key (post_video_id pe)) st' !! "createdAt" = Some (pe_iso_created pe).
Proof.
  intros H. unfold post_process in H.
  destruct (negb _ && _); [discriminate|].
  destruct (pe_mkdir pe (post_upload_dir pe)); [discriminate|].
  destruct (pe_mkdir pe (post_input_dir pe)); [discriminate|].
  set (st1 := mkdir_p (post_input_dir pe) (mkdir_p (post_upload_dir pe) st)) in H.
  pose proof (upload_mono pe (post_input_dir pe) st1) as _.
  assert (Hq : st_queue (upload pe (post_input_dir pe) st1).2 = st_queue st).
  { unfold upload. apply (foldl_inv _ (fun us => st_queue us.2 = st_queue st)); [done|].
    intros [u0 s0] e He. destruct e; simpl; repeat (case_match; try done). }
  destruct (upload pe (post_input_dir pe) st1) as [u st2]. simpl in Hq.
  destruct (up_res u) as [[m|]|]; [|  |discriminate].
  - unfold fail_reply in H. congruence.
  - destruct (up_saved u) as [p|], (up_orig u) as [f|]; try discriminate.
    destruct (_ || _); [discriminate|].
    destruct (pe_hset pe); [unfold fail_reply in H; discriminate|].
    destruct (pe_add pe); [|discriminate].
    injection H as <-.
    unfold record_of. rewrite (proj1 (proj2 (unlink_frame _ _ _))), (proj2 (proj2 (unlink_frame _ _ _))).
    simpl. rewrite Hq. split; [done|].
    rewrite lookup_insert, decide_True by done. simpl. unfold apply_fields. simpl.
    split; [rewrite !lookup_insert_ne by done; by rewrite lookup_insert, decide_True by done|].
    by rewrite lookup_insert, decide_True by done.
Qed.

(** X8: when the upload promise resolves, [fileSavedPath] and
    [originalFilename] are both set and nonempty, so the guard of line 183
    (No valid file was saved) never fires. *)
Theorem upload_resolved_has_file pe st :
  (forall k, has_char slash (pe_uuid pe k) = false) -> has_char slash (pe_iso_id pe) = false ->
  up_res (upload pe (post_input_dir pe) st).1 = Some None ->
  exists p f, up_saved (upload pe (post_input_dir pe) st).1 = Some p /\
              up_orig (upload pe (post_input_dir pe) st).1 = Some f /\ p <> "" /\ f <> "".
Proof.
  intros Hu Hi Hr. destruct (post_dirs_eq pe (Hu 0%nat) Hi) as [_ Ei].
  pose proof (video_id_plain pe (Hu 0%nat) Hi) as Hv.
  pose proof (upload_inv pe ["tmp"; post_video_id pe; "in"] st ltac:(done) ltac:(repeat constructor; done) Hu) as Hinv.
  rewrite <- Ei in Hinv. destruct (upload pe (post_input_dir pe) st) as [u st2]. simpl in *.
  destruct Hinv as (H1 & H2 & _ & H4 & _). destruct (H4 Hr) as [[p Hp] [f Hf]].
  exists p, f. split; [done|]. split; [done|]. split; [|by apply H2].
  destruct (H1 p Hp) as [[name [_ ->]] _]. rewrite Ei. discriminate.
Qed.

(** X9: a request whose body has no file part named [file] and no parser
    error, and whose parsing finishes, is answered 400 with the error
    No file uploaded with field name file. *)
Theorem post_no_file_part pe st :
  (pe_ready pe = true \/ pe_connect pe = None) ->
  pe_mkdir pe (post_upload_dir pe) = None -> pe_mkdir pe (post_input_dir pe) = None ->
  Forall no_file_part (pe_events pe) -> In BFinish (pe_events pe) ->
  (post_process pe st).2 = fail_reply 400 "No file uploaded with field name 'file'.".
Proof.
  intros Hc Mo Mi HF Hin. unfold post_process.
  replace (negb (pe_ready pe) && bool_decide (is_Some (pe_connect pe))) with false
    by (destruct Hc as [-> | ->]; [done|by rewrite bool_decide_eq_false_2 by (intros [? ?]; done); destruct (pe_ready pe)]).
  rewrite Mo, Mi.
  set (msg := "No file uploaded with field name 'file'.").
  set (Q2 := fun (u : Up) => up_res u = Some (Some msg) /\ up_saved u = None /\ up_streams u = 0%nat /\ up_done u = true).
  set (Q1 := fun (u : Up) => (up_res u = None /\ up_saved u = None /\ up_streams u = 0%nat /\ up_done u = false) \/ Q2 u).
  assert (S1 : forall us e, no_file_part e -> Q1 us.1 -> Q1 (bb_step pe (post_input_dir pe) us e).1).
  { intros [u s] e He Hq. destruct e as [name raw mime data| |m|m|m|]; simpl in *.
    - destruct (up_done u); [done|]. destruct (String.eqb_spec name "file"); [done|]. done.
    - destruct Hq as [(H1 & H2 & H3 & H4)|(H1 & H2 & H3 & H4)]; rewrite H3; simpl; unfold Q1, Q2; tauto.
    - destruct Hq as [(H1 & H2 & H3 & H4)|(H1 & H2 & H3 & H4)]; rewrite H3; simpl; unfold Q1, Q2; tauto.
    - destruct Hq as [(H1 & H2 & H3 & H4)|(H1 & H2 & H3 & H4)]; rewrite H3; simpl; unfold Q1, Q2; tauto.
    - done.
    - destruct Hq as [(Hr & Hs & Hn & Hd)|(Hr & Hs & Hn & Hd)].
      + rewrite Hd, Hs. simpl. right. unfold Q2, settle. simpl. by rewrite Hr.
      + rewrite Hd. simpl. by right. }
  assert (S2 : forall us e, no_file_part e -> Q2 us.1 -> Q2 (bb_step pe (post_input_dir pe) us e).1).
  { intros [u s] e He Hq. destruct Hq as (Hr & Hs & Hn & Hd).
    destruct e as [name raw mime data| |m|m|m|]; simpl in *; rewrite ?Hd, ?Hn; simpl; try done.
    }
  assert (Hfin : forall l us, Forall no_file_part l -> Q2 us.1 -> Q2 (foldl (bb_step pe (post_input_dir pe)) us l).1).
  { induction l as [|e l IH]; intros us Hl Hq; [done|]. apply Forall_cons in Hl as [He Hl]. simpl. apply IH; auto. }
  apply in_split in Hin as (l1 & l2 & El).
  assert (Hq : Q2 (upload pe (post_input_dir pe) (mkdir_p (post_input_dir pe) (mkdir_p (post_upload_dir pe) st))).1).
  { unfold upload. rewrite El, foldl_app. simpl.
    rewrite El in HF. apply Forall_app in HF as [H1 H2]. apply Forall_cons in H2 as [_ H2].
    apply Hfin; [done|].
    assert (Hq1 : forall l us, Forall no_file_part l -> Q1 us.1 -> Q1 (foldl (bb_step pe (post_input_dir pe)) us l).1).
    { induction l as [|e l IH]; intros us Hl Hq; [done|]. apply Forall_cons in Hl as [He Hl]. simpl. apply IH; auto. }
    specialize (Hq1 l1 (up_init, mkdir_p (post_input_dir pe) (mkdir_p (post_upload_dir pe) st)) H1 (or_introl (conj eq_refl (conj eq_refl (conj eq_refl eq_refl))))).
    destruct (foldl _ _ l1) as [u s]. unfold Q1, Q2 in Hq1. simpl in *.
    destruct Hq1 as [(Hr & Hs & Hn & Hd)|(Hr & Hs & Hn & Hd)].
    - rewrite Hd, Hs. simpl. unfold Q2, settle. simpl. by rewrite Hr.
    - rewrite Hd. simpl. done. }
  destruct (upload _ _ _) as [u s]. destruct Hq as (Hr & Hs & _). simpl in Hr, Hs. rewrite Hr, Hs. done.
Qed.


Lemma span_uint u c rest :
  digit_val c = None ->
  span_digits (String.list_ascii_of_string (uint_str u) ++ c :: rest) = (uint_digits u, c :: rest).
Proof.
  intros Hc. induction u; simpl; rewrite ?IHu; try reflexivity. simpl. by rewrite Hc.
Qed.

Lemma digits_acc u acc :
  fold_left (fun a d => a * 10 + d) (uint_digits u) (Zpos acc) = Zpos (Pos.of_uint_acc u acc).
Proof.
  revert acc. induction u; intros acc; simpl; rewrite <- ?IHu; f_equal; lia.
Qed.

Lemma digits_of_uint u : digits_Z (uint_digits u) = Z.of_N (Pos.of_uint u).
Proof.
  unfold digits_Z. induction u; simpl; [reflexivity|exact IHu|..];
    match goal with |- context [0 * 10 + ?k] => change (0 * 10 + k) with k end; apply digits_acc.
Qed.

Lemma nb_nzhead d : (Decimal.nb_digits (Decimal.nzhead d) <= Decimal.nb_digits d)%nat.
Proof. induction d; simpl; lia. Qed.

Lemma to_uint_lead p : exists d ds, uint_digits (Pos.to_uint p) = d :: ds /\ 1 <= d <= 9.
Proof.
  pose proof (DecimalPos.Unsigned.to_of (Pos.to_uint p)) as H.
  rewrite DecimalPos.Unsigned.of_to in H. simpl in H.
  pose proof (DecimalPos.Unsigned.to_uint_nonzero p) as Hz.
  pose proof (DecimalPos.Unsigned.to_uint_nonnil p) as Hn.
  destruct (Pos.to_uint p) as [|u|u|u|u|u|u|u|u|u|u]; try done;
    try (eexists _, _; split; [reflexivity|lia]).
  exfalso. unfold Decimal.unorm in H. simpl in H.
  pose proof (nb_nzhead u) as Hl.
  destruct (Decimal.nzhead u) eqn:E; try (rewrite <- H in Hl; simpl in Hl; lia).
  rewrite <- H in Hz. done.
Qed.

Lemma p_number_digits u rest :
  match u with Decimal.Nil | Decimal.D0 _ => False | _ => True end ->
  p_number (String.list_ascii_of_string (uint_str u) ++ ","%char :: rest) =
    Some (jnum (digits_Z (uint_digits u)) 0, ","%char :: rest) /\
  p_number ("-"%char :: String.list_ascii_of_string (uint_str u) ++ ","%char :: rest) =
    Some (jnum (- digits_Z (uint_digits u)) 0, ","%char :: rest).
Proof.
  destruct u; try done; intros _; unfold p_number; simpl;
    rewrite span_uint by reflexivity; simpl; rewrite app_nil_r; split; reflexivity.
Qed.

Lemma digits_to_uint p : digits_Z (uint_digits (Pos.to_uint p)) = Zpos p.
Proof. by rewrite digits_of_uint, DecimalPos.Unsigned.of_to. Qed.

Lemma to_uint_shape p : match Pos.to_uint p with Decimal.Nil | Decimal.D0 _ => False | _ => True end.
Proof.
  destruct (to_uint_lead p) as (d & ds & Hd & Hr).
  destruct (Pos.to_uint p); simpl in Hd; try done; injection Hd as <- _; lia.
Qed.

Lemma p_number_zstr h rest :
  p_number (String.list_ascii_of_string (zstr h) ++ ","%char :: rest) = Some (jint h, ","%char :: rest).
Proof.
  destruct h as [|p|p].
  - reflexivity.
  - simpl zstr. rewrite (proj1 (p_number_digits _ rest (to_uint_shape p))). by rewrite digits_to_uint.
  - change (String.list_ascii_of_string (zstr (Zneg p)))
      with ("-"%char :: String.list_ascii_of_string (uint_str (Pos.to_uint p))).
    rewrite <- app_comm_cons, (proj2 (p_number_digits _ rest (to_uint_shape p))). by rewrite digits_to_uint.
Qed.


Lemma json_escape_cons c s : json_escape (String c s) = esc_of c +:+ json_escape s.
Proof. reflexivity. Qed.

Lemma p_str_esc c rest :
  p_str (String.list_ascii_of_string (esc_of c) ++ rest) =
    option_map (fun p => (Z.of_nat (Ascii.nat_of_ascii c) :: p.1, p.2)) (p_str rest).
Proof. destruct c as [[] [] [] [] [] [] [] []]; reflexivity. Qed.

Lemma p_str_json u rest :
  p_str (String.list_ascii_of_string (json_escape u) ++ dq :: rest) = Some (units u, rest).
Proof.
  induction u as [|c u IH]; [reflexivity|].
  rewrite json_escape_cons, lac_app, <- app_assoc, p_str_esc, IH. reflexivity.
Qed.

Lemma p_value_unfold f s : p_value (S f) s =
  match skip_ws s with
  | [] => PErr
  | c :: r =>
      let n := Ascii.nat_of_ascii c in
      if (n =? 110)%nat then
        match r with "u"%char :: "l"%char :: "l"%char :: r' => POk JNull r' | _ => PErr end
      else if (n =? 116)%nat then
        match r with "r"%char :: "u"%char :: "e"%char :: r' => POk (JBool true) r' | _ => PErr end
      else if (n =? 102)%nat then
        match r with "a"%char :: "l"%char :: "s"%char :: "e"%char :: r' => POk (JBool false) r' | _ => PErr end
      else if (n =? 34)%nat then
        match p_str r with Some (u, r') => POk (JStr u) r' | None => PErr end
      else if (n =? 91)%nat then
        match skip_ws r with
        | c' :: r' => if (Ascii.nat_of_ascii c' =? 93)%nat then POk (JArr []) r' else p_elems f r []
        | [] => PErr
        end
      else if (n =? 123)%nat then
        match skip_ws r with
        | c' :: r' => if (Ascii.nat_of_ascii c' =? 125)%nat then POk (JObj []) r' else p_members f r []
        | [] => PErr
        end
      else
        match p_number (c :: r) with Some (v, r') => POk v r' | None => PErr end
  end.
Proof. reflexivity. Qed.

Lemma p_elems_unfold f s acc : p_elems (S f) s acc =
  match p_value f s with
  | POk v r =>
      match skip_ws r with
      | c :: r' =>
          if (Ascii.nat_of_ascii c =? 44)%nat then p_elems f r' (acc ++ [v])
          else if (Ascii.nat_of_ascii c =? 93)%nat then POk (JArr (acc ++ [v])) r'
          else PErr
      | [] => PErr
      end
  | e => e
  end.
Proof. reflexivity. Qed.

Lemma p_members_unfold f s acc : p_members (S f) s acc =
  match skip_ws s with
  | c :: r =>
      if (Ascii.nat_of_ascii c =? 34)%nat then
        match p_str r with
        | Some (k, r1) =>
            match skip_ws r1 with
            | c1 :: r2 =>
                if (Ascii.nat_of_ascii c1 =? 58)%nat then
                  match p_value f r2 with
                  | POk v r3 =>
                      let acc := obj_set acc k v in
                      match skip_ws r3 with
                      | c3 :: r4 =>
                          if (Ascii.nat_of_ascii c3 =? 44)%nat then p_members f r4 acc
                          else if (Ascii.nat_of_ascii c3 =? 125)%nat then POk (JObj (own_keys_order acc)) r4
                          else PErr
                      | [] => PErr
                      end
                  | e => e
                  end
                else PErr
            | [] => PErr
            end
        | None => PErr
        end
      else PErr
  | [] => PErr
  end.
Proof. reflexivity. Qed.

Lemma zstr_head h : exists c s, String.list_ascii_of_string (zstr h) = c :: s /\
  (Ascii.nat_of_ascii c = 45%nat \/ (48 <= Ascii.nat_of_ascii c <= 57)%nat).
Proof.
  destruct h as [|p|p].
  - eexists _, _. split; [reflexivity|]. compute. lia.
  - pose proof (to_uint_shape p). simpl zstr.
    destruct (Pos.to_uint p); try done; eexists _, _; (split; [reflexivity|]); compute; lia.
  - eexists _, _. split; [reflexivity|]. simpl. left. reflexivity.
Qed.

Lemma p_value_zstr f h rest :
  p_value (S f) (String.list_ascii_of_string (zstr h) ++ ","%char :: rest) = POk (jint h) (","%char :: rest).
Proof.
  rewrite p_value_unfold. pose proof (p_number_zstr h rest) as Hn.
  destruct (zstr_head h) as (c & s & Hc & Hd). rewrite Hc in Hn |- *. simpl.
  assert (Hws : is_ws c = false) by (unfold is_ws; repeat (apply orb_false_iff; split); apply Nat.eqb_neq; lia).
  rewrite Hws.
  assert (Hne : forall k, (k = 110 \/ k = 116 \/ k = 102 \/ k = 34 \/ k = 91 \/ k = 123)%nat ->
            (Ascii.nat_of_ascii c =? k)%nat = false) by (intros k Hk; apply Nat.eqb_neq; lia).
  rewrite !Hne by lia. rewrite <- app_comm_cons in Hn. by rewrite Hn.
Qed.

Section parse_urls.
Local Arguments p_value : simpl never.
Local Arguments p_elems : simpl never.
Local Arguments p_members : simpl never.

Lemma p_value_url g tu rest :
  p_value (S (S (S (S g)))) (String.list_ascii_of_string (json_url tu) ++ rest) = POk (url_jv tu) rest.
Proof.
  destruct tu as [h u]. unfold json_url, json_string. rewrite !lac_app, <- !app_assoc.
  rewrite p_value_unfold. simpl.
  rewrite p_members_unfold. simpl.
  rewrite p_value_zstr. simpl.
  rewrite p_members_unfold. simpl.
  rewrite p_value_unfold. simpl.
  rewrite p_str_json. simpl.
  reflexivity.
Qed.

Lemma p_elems_urls us g acc rest :
  us <> [] -> (length us <= S g)%nat ->
  p_elems (S (S (S (S (S g))))) (String.list_ascii_of_string (String.concat "," (map json_url us)) ++ "]"%char :: rest) acc
  = POk (JArr (acc ++ map url_jv us)) rest.
Proof.
  revert g acc. induction us as [|tu us IH]; intros g acc Hne Hl; [done|].
  destruct us as [|tu' us].
  - simpl String.concat. rewrite p_elems_unfold, p_value_url. reflexivity.
  - change (map json_url (tu :: tu' :: us)) with (json_url tu :: map json_url (tu' :: us)).
    rewrite (sconcat_cons "," (json_url tu) (map json_url (tu' :: us))) by done.
    rewrite !lac_app, <- !app_assoc. rewrite p_elems_unfold, p_value_url. simpl.
    destruct g as [|g]; [simpl in Hl; lia|].
    rewrite (IH g) by (done || (simpl in *; lia)). by rewrite <- app_assoc.
Qed.

Lemma length_concat_urls us :
  (length us <= length (String.list_ascii_of_string (String.concat "," (map json_url us))))%nat.
Proof.
  induction us as [|tu us IH]; [simpl; lia|].
  destruct us as [|tu' us].
  - simpl. unfold json_url. rewrite lac_app. simpl. lia.
  - change (map json_url (tu :: tu' :: us)) with (json_url tu :: map json_url (tu' :: us)).
    rewrite (sconcat_cons "," (json_url tu) (map json_url (tu' :: us))) by done.
    rewrite !lac_app, !length_app. unfold json_url at 1. rewrite lac_app. simpl in *. lia.
Qed.

Lemma concat_urls_head tu us :
  exists r, String.list_ascii_of_string (String.concat "," (map json_url (tu :: us))) = "{"%char :: r.
Proof.
  destruct us as [|tu' us].
  - eexists. reflexivity.
  - change (map json_url (tu :: tu' :: us)) with (json_url tu :: map json_url (tu' :: us)).
    rewrite (sconcat_cons "," (json_url tu) (map json_url (tu' :: us))) by done.
    eexists. reflexivity.
Qed.

(** X10: [JSON.parse] of the [JSON.stringify(urls)] that [processJob]
    stores gives back the array of objects with [type] and [url], for
    every list of heights and URLs. *)
Theorem JSON_parse_json_urls us : JSON_parse (json_urls us) = Some (JArr (map url_jv us)).
Proof.
  destruct us as [|tu us]; [reflexivity|].
  unfold JSON_parse.
  pose proof (length_concat_urls (tu :: us)) as Hl.
  destruct (concat_urls_head tu us) as [r Hr].
  assert (Hc : String.list_ascii_of_string (json_urls (tu :: us)) =
               "["%char :: String.list_ascii_of_string (String.concat "," (map json_url (tu :: us))) ++ ["]"%char])
    by (unfold json_urls; rewrite !lac_app; reflexivity).
  assert (F : exists g, S (S (2 * length (String.list_ascii_of_string (json_urls (tu :: us))))) =
                        S (S (S (S (S (S g))))) /\ (length (tu :: us) <= S g)%nat).
  { rewrite Hc, Hr. rewrite Hr in Hl. simpl length in *. rewrite length_app. simpl length.
    exists (2 * S (length r))%nat. split; lia. }
  destruct F as (g & -> & Hg). rewrite Hc.
  rewrite p_value_unfold. rewrite Hr. simpl. rewrite app_comm_cons, <- Hr.
  rewrite p_elems_urls by done. reflexivity.
Qed.
End parse_urls.

Lemma skip_ws_len s : (length (skip_ws s) <= length s)%nat.
Proof. induction s as [|c s IH]; simpl; [lia|]. destruct (is_ws c); simpl; lia. Qed.

Lemma skip_ws_cons_len s c r : skip_ws s = c :: r -> (length r < length s)%nat.
Proof. intros E. pose proof (skip_ws_len s) as L. rewrite E in L. simpl in L. lia. Qed.

Lemma p_str_len s u r : p_str s = Some (u, r) -> (length r < length s)%nat.
Proof.
  revert u r. induction s as [s IH] using (induction_ltof1 _ (@length ascii)); unfold ltof in IH.
  intros u r H. destruct s as [|c s]; [done|]. simpl in H.
  repeat (case_match; simplify_eq/=); try lia;
    match goal with H : option_map _ (p_str ?x) = _ |- _ =>
      destruct (p_str x) as [[u' r']|] eqn:E; simplify_eq/=; apply IH in E; simpl in *; lia end.
Qed.

Lemma span_digits_len s ds r : span_digits s = (ds, r) -> (length r <= length s)%nat.
Proof.
  revert ds r. induction s as [|c s IH]; intros ds r E; simpl in E; [by simplify_eq|].
  destruct (digit_val c); [|simplify_eq/=; lia].
  destruct (span_digits s) as [ds' r'] eqn:E'. specialize (IH _ _ eq_refl). simplify_eq/=. lia.
Qed.

Lemma p_number_len s v r : p_number s = Some (v, r) -> (length r < length s)%nat.
Proof.
  intros H. unfold p_number in H.
  repeat (case_match; simplify_eq/=);
    repeat match goal with E : span_digits _ = (_, _) |- _ => apply span_digits_len in E end;
    simpl in *; lia.
Qed.


Lemma parse_fuel f :
  (forall s, (2 * length s < f)%nat -> fuel_ok f s (p_value f s)) /\
  (forall s acc, (2 * length s + 1 < f)%nat -> fuel_ok f s (p_elems f s acc)) /\
  (forall s acc, (2 * length s < f)%nat -> fuel_ok f s (p_members f s acc)).
Proof.
  induction f as [|f (IHv & IHe & IHm)]; [repeat split; intros; lia|].
  split; [|split].
  - intros s Hs. cbn [p_value].
    destruct (skip_ws s) as [|c r] eqn:Ew; [split; congruence|].
    apply skip_ws_cons_len in Ew.
    repeat case_match; simplify_eq/=; try (split; [congruence|intros; simplify_eq/=; lia]).
    + match goal with E : p_str _ = Some _ |- _ => apply p_str_len in E end.
      split; [congruence|intros; simplify_eq/=; lia].
    + match goal with E : skip_ws r = _ |- _ => apply skip_ws_cons_len in E end.
      split; [congruence|intros; simplify_eq/=; lia].
    + destruct (IHe r [] ltac:(lia)) as [Hf Hl]. split; [done|intros v r' E; apply Hl in E; lia].
    + match goal with E : skip_ws r = _ |- _ => apply skip_ws_cons_len in E end.
      split; [congruence|intros; simplify_eq/=; lia].
    + destruct (IHm r [] ltac:(lia)) as [Hf Hl]. split; [done|intros v r' E; apply Hl in E; lia].
    + match goal with E : p_number _ = Some _ |- _ => apply p_number_len in E end.
      split; [congruence|intros; simplify_eq/=; simpl in *; lia].
  - intros s acc Hs. cbn [p_elems].
    destruct (IHv s ltac:(lia)) as [Hf Hl].
    destruct (p_value f s) as [v r| |] eqn:Ev; [|split; congruence|done].
    specialize (Hl v r eq_refl).
    destruct (skip_ws r) as [|c r'] eqn:Ew; [split; congruence|].
    apply skip_ws_cons_len in Ew.
    repeat case_match; try (split; [congruence|intros; simplify_eq/=; lia]).
    destruct (IHe r' (acc ++ [v]) ltac:(lia)) as [Hf' Hl']. split; [done|intros v' r'' E; apply Hl' in E; lia].
  - intros s acc Hs. cbn [p_members].
    destruct (skip_ws s) as [|c r] eqn:Ew; [split; congruence|].
    apply skip_ws_cons_len in Ew.
    case_match; [|split; congruence].
    destruct (p_str r) as [[k r1]|] eqn:Es; [|split; congruence].
    apply p_str_len in Es.
    destruct (skip_ws r1) as [|c1 r2] eqn:Ew1; [split; congruence|].
    apply skip_ws_cons_len in Ew1.
    case_match; [|split; congruence].
    destruct (IHv r2 ltac:(lia)) as [Hf Hl].
    destruct (p_value f r2) as [v r3| |] eqn:Ev; [|split; congruence|done].
    specialize (Hl v r3 eq_refl).
    destruct (skip_ws r3) as [|c3 r4] eqn:Ew3; [split; congruence|].
    apply skip_ws_cons_len in Ew3.
    repeat case_match; try (split; [congruence|intros; simplify_eq/=; lia]).
    destruct (IHm r4 (obj_set acc k v) ltac:(lia)) as [Hf' Hl']. split; [done|intros v' r'' E; apply Hl' in E; lia].
Qed.

(** The fuel [JSON_parse] gives the descent is never exhausted. *)
Lemma json_parse_fuel s :
  p_value (S (S (2 * length (String.list_ascii_of_string s)))) (String.list_ascii_of_string s) <> PFuel.
Proof. apply (proj1 (parse_fuel _)). lia. Qed.

Lemma apply_fields_lookup r fs k :
  apply_fields r fs !! k = match assoc k (rev fs) with Some v => Some v | None => r !! k end.
Proof.
  revert r. induction fs as [|[f v] fs IH] using rev_ind; intros r; [reflexivity|].
  unfold apply_fields in *. rewrite foldl_app, rev_app_distr. simpl.
  destruct (String.eqb_spec f k) as [->|Hne].
  - by rewrite lookup_insert_eq.
  - rewrite lookup_insert_ne by congruence. apply IH.
Qed.

Lemma foldl_apply_fields r ws : foldl apply_fields r ws = apply_fields r (concat ws).
Proof.
  revert r. induction ws as [|fs ws IH]; intros r; [reflexivity|].
  simpl. rewrite IH. unfold apply_fields. by rewrite foldl_app.
Qed.

Lemma json_urls_ne us : String.eqb (json_urls us) "" = false.
Proof. reflexivity. Qed.

Lemma record_of_run env jid job t st0 :
  exists n e, (n <= 5)%nat /\ run_shape n e (o_res (runJob env jid job t st0)) /\
    record_of (status_key (videoId job)) (o_st (runJob env jid job t st0)) =
      apply_fields (record_of (status_key (videoId job)) st0)
        (concat (queued_fields t :: take n (milestone_writes (env_master_url env) (env_urls_json env)) ++ e)).
Proof.
  destruct (runJob_writes env jid job t st0) as (n & e & Hn & _ & S1 & Hs).
  exists n, e. split; [done|]. split; [done|].
  unfold record_of at 1. rewrite S1.
  change ((?k, queued_fields t) :: map (pair ?k) ?L) with (map (pair k) (queued_fields t :: L)).
  rewrite record_after_writes, foldl_apply_fields. reflexivity.
Qed.

(** X11: after a run whose record reads [completed], [GET /status/:videoId]
    answers 200 with the six fields the run wrote and the parsed [urls]. *)
Theorem get_status_completed env jid job t st0 :
  videoId job <> "" ->
  record_of (status_key (videoId job)) (o_st (runJob env jid job t st0)) !! "status" = Some "completed" ->
  get_status false (videoId job) (o_st (runJob env jid job t st0)) =
    Respond 200 [("success", JBool true); ("videoId", jstr (videoId job));
                 ("status", jstr "completed"); ("progress", jstr "100"); ("error", jstr "");
                 ("masterUrl", jstr (env_master_url env));
                 ("urls", match env_upload env with inr us => JArr (map url_jv us) | inl _ => JNull end);
                 ("createdAt", jstr t)].
Proof.
  intros Hv Hc. destruct (record_of_run env jid job t st0) as (n & e & Hn & Hs & Hr).
  rewrite Hr in Hc.
  assert (n = 5%nat /\ e = []) as [-> ->].
  { destruct Hs as [(-> & -> & _) | (Hlt & [(m & -> & _) | (-> & _)])]; [done| |];
      destruct n as [|[|[|[|[|n]]]]]; try lia;
      rewrite apply_fields_lookup in Hc; discriminate. }
  unfold get_status. rewrite Hr.
  destruct (String.eqb_spec (videoId job) "") as [|_]; [done|].
  rewrite bool_decide_false.
  2:{ intros E. assert (Hs' : apply_fields (record_of (status_key (videoId job)) st0)
        (concat (queued_fields t :: take 5 (milestone_writes (env_master_url env) (env_urls_json env)) ++ []))
        !! "status" = Some "completed") by exact Hc.
      rewrite E in Hs'. discriminate. }
  rewrite !apply_fields_lookup. cbn -[json_urls].
  unfold env_urls_json. destruct (env_upload env) as [m|us].
  - reflexivity.
  - rewrite json_urls_ne, JSON_parse_json_urls. reflexivity.
Qed.

(** X12: right after [POST /process] answered 200 for a fresh video id,
    [GET /status/:videoId] answers 200 with status [queued], progress
    [0], an empty error, no master URL and no URLs. *)
Theorem get_status_after_post pe st st' body :
  (forall k, has_char slash (pe_uuid pe k) = false) -> has_char slash (pe_iso_id pe) = false ->
  st_store st !! status_key (post_video_id pe) = None ->
  post_process pe st = (st', Respond 200 body) ->
  get_status false (post_video_id pe) st' =
    Respond 200 [("success", JBool true); ("videoId", jstr (post_video_id pe));
                 ("status", jstr "queued"); ("progress", jstr "0"); ("error", jstr "");
                 ("masterUrl", JNull); ("urls", JNull); ("createdAt", jstr (pe_iso_created pe))].
Proof.
  intros Hu Hi Hf H.
  destruct (post_accepted pe st st' body Hu Hi H) as (_ & _ & _ & st1 & name & _ & -> & _ & _ & _ & Hs & _).
  unfold get_status.
  destruct (String.eqb_spec (post_video_id pe) "") as [E|_].
  { unfold post_video_id in E. destruct (pe_uuid pe 0); discriminate. }
  unfold record_of, enqueue. cbn [st_store set_queue emit set_store videoId].
  rewrite lookup_insert_eq, Hs, Hf. cbn [default id].
  rewrite bool_decide_false by (intros E; pose proof (f_equal (lookup "status") E) as E';
    rewrite apply_fields_lookup in E'; discriminate).
  rewrite !apply_fields_lookup. reflexivity.
Qed.

Lemma pe_ok_uuid k : has_char slash (pe_uuid pe_ok k) = false.
Proof. by destruct k. Qed.

Lemma unique_filename_shape_witness :
  unique_filename ("clip" +:+ String "." "MP4") "0f1e2d3c" =
    (if String.eqb (to_lower "MP4") "MP4" then "clip" else "clip" +:+ String "." "MP4")
    +:+ "-" +:+ "0f1e2d3c" +:+ String "." (to_lower "MP4").
Proof. apply unique_filename_shape; (discriminate || reflexivity). Defined.

Lemma post_accepted_witness :
  let r := post_process pe_ok st_post in
  r.2 = Respond 200 [("success", JBool true); ("videoId", jstr (post_video_id pe_ok));
                     ("message", jstr "Video queued for processing.")] /\
  post_upload_dir pe_ok = "/tmp/" +:+ post_video_id pe_ok +:+ "/out" /\
  post_input_dir pe_ok = "/tmp/" +:+ post_video_id pe_ok +:+ "/in" /\
  exists st1 name, plain name = true /\
    r.1 = enqueue app_opts (pe_jid pe_ok)
            {| videoId := post_video_id pe_ok; inputFilePath := post_input_dir pe_ok +:+ "/" +:+ name;
               uploadDir := post_upload_dir pe_ok; inputDir := post_input_dir pe_ok |}
            (pe_iso_created pe_ok) st1 /\
    is_Some (st_files st1 !! (post_input_dir pe_ok +:+ "/" +:+ name)) /\
    post_upload_dir pe_ok ∈ st_dirs st1 /\ post_input_dir pe_ok ∈ st_dirs st1 /\
    st_store st1 = st_store st_post /\ st_queue st1 = st_queue st_post.
Proof.
  intros r. split; [vm_compute; reflexivity|].
  apply (post_accepted pe_ok st_post r.1 [("success", JBool true); ("videoId", jstr (post_video_id pe_ok));
                     ("message", jstr "Video queued for processing.")]).
  - exact pe_ok_uuid.
  - reflexivity.
  - vm_compute. reflexivity.
Defined.

Lemma post_dirs_persist_witness :
  st_dirs st_post ⊆ st_dirs (post_process pe_no_file st_post).1 /\
  post_upload_dir pe_no_file ∈ st_dirs (post_process pe_no_file st_post).1 /\
  post_input_dir pe_no_file ∈ st_dirs (post_process pe_no_file st_post).1.
Proof.
  apply post_dirs_persist; [exact pe_ok_uuid|reflexivity|left; reflexivity|reflexivity|reflexivity].
Defined.

Lemma post_enqueue_failure_leaves_queued_witness :
  let st' := (post_process pe_add_fails st_post).1 in
  st_queue st' = st_queue st_post /\
  record_of (status_key (post_video_id pe_add_fails)) st' !! "status" = Some "queued" /\
  record_of (status_key (post_video_id pe_add_fails)) st' !! "createdAt" = Some (pe_iso_created pe_add_fails).
Proof.
  intros st'. apply post_enqueue_failure_leaves_queued. vm_compute. reflexivity.
Defined.

Lemma upload_resolved_has_file_witness :
  exists p f, up_saved (upload pe_ok (post_input_dir pe_ok) st_post).1 = Some p /\
              up_orig (upload pe_ok (post_input_dir pe_ok) st_post).1 = Some f /\ p <> "" /\ f <> "".
Proof.
  apply upload_resolved_has_file; [exact pe_ok_uuid|reflexivity|vm_compute; reflexivity].
Defined.

Lemma post_no_file_part_witness :
  (post_process pe_no_file st_post).2 = fail_reply 400 "No file uploaded with field name 'file'.".
Proof.
  apply post_no_file_part; [left; reflexivity|reflexivity|reflexivity| |simpl; tauto].
  repeat constructor. discriminate.
Defined.

Lemma get_status_completed_witness :
  get_status false (videoId job_v1) (o_st (runJob env_ok "1" job_v1 "2024-01-01T00:00:00.000Z" st_v1)) =
    Respond 200 [("success", JBool true); ("videoId", jstr (videoId job_v1));
                 ("status", jstr "completed"); ("progress", jstr "100"); ("error", jstr "");
                 ("masterUrl", jstr (env_master_url env_ok));
                 ("urls", match env_upload env_ok with inr us => JArr (map url_jv us) | inl _ => JNull end);
                 ("createdAt", jstr "2024-01-01T00:00:00.000Z")].
Proof. apply get_status_completed; [discriminate|vm_compute; reflexivity]. Defined.

Lemma get_status_after_post_witness :
  get_status false (post_video_id pe_ok) (post_process pe_ok st_post).1 =
    Respond 200 [("success", JBool true); ("videoId", jstr (post_video_id pe_ok));
                 ("status", jstr "queued"); ("progress", jstr "0"); ("error", jstr "");
                 ("masterUrl", JNull); ("urls", JNull); ("createdAt", jstr (pe_iso_created pe_ok))].
Proof.
  apply (get_status_after_post pe_ok st_post _
           [("success", JBool true); ("videoId", jstr (post_video_id pe_ok));
            ("message", jstr "Video queued for processing.")]);
    [exact pe_ok_uuid|reflexivity|reflexivity|vm_compute; reflexivity].
Defined.

(** Once the promise is settled and no stream handler is attached, the
    handlers ignore every later event. *)
Lemma bb_step_settled pe dir u st e :
  up_done u = true -> up_streams u = 0%nat -> bb_step pe dir (u, st) e = (u, st).
Proof.
  intros Hd Hs. destruct e; simpl; rewrite ?Hd, ?Hs; reflexivity.
Qed.

Lemma foldl_settled pe dir u st l :
  up_done u = true -> up_streams u = 0%nat -> foldl (bb_step pe dir) (u, st) l = (u, st).
Proof.
  intros Hd Hs. induction l as [|e l IH]; [done|]. cbn [foldl]. rewrite bb_step_settled by done. exact IH.
Qed.

Lemma post_first_reject pe st e rest m :
  (pe_ready pe = true \/ pe_connect pe = None) ->
  pe_mkdir pe (post_upload_dir pe) = None -> pe_mkdir pe (post_input_dir pe) = None ->
  pe_events pe = e :: rest ->
  (forall st1, exists u, bb_step pe (post_input_dir pe) (up_init, st1) e = (u, st1) /\
     up_done u = true /\ up_streams u = 0%nat /\ up_res u = Some (Some m) /\ up_saved u = None) ->
  post_process pe st =
    (mkdir_p (post_input_dir pe) (mkdir_p (post_upload_dir pe) st), fail_reply 400 m).
Proof.
  intros Hc Mo Mi He Hstep. unfold post_process.
  replace (negb (pe_ready pe) && bool_decide (is_Some (pe_connect pe))) with false
    by (destruct Hc as [-> | ->]; [done|by rewrite bool_decide_eq_false_2 by (intros [? ?]; done); destruct (pe_ready pe)]).
  rewrite Mo, Mi. unfold upload. rewrite He. cbn [foldl].
  destruct (Hstep (mkdir_p (post_input_dir pe) (mkdir_p (post_upload_dir pe) st))) as (u & -> & Hd & Hs & Hr & Hv).
  rewrite foldl_settled by done. rewrite Hr, Hv. reflexivity.
Qed.

(** X13: a first file part named [file] whose type is neither an allowed MIME
    type nor an allowed extension is answered 400; nothing is saved and
    nothing is written to Redis or the queue. *)
Theorem post_invalid_type pe st raw mime data rest :
  (pe_ready pe = true \/ pe_connect pe = None) ->
  pe_mkdir pe (post_upload_dir pe) = None -> pe_mkdir pe (post_input_dir pe) = None ->
  pe_events pe = BFile "file" (Some raw) mime data :: rest ->
  bb_basename raw <> "" ->
  includes ALLOWED_VIDEO_TYPES mime = false ->
  includes allowedExtensions (to_lower (extname (bb_basename raw))) = false ->
  post_process pe st =
    (mkdir_p (post_input_dir pe) (mkdir_p (post_upload_dir pe) st),
     fail_reply 400 "Invalid file type. Allowed: mp4, mkv, webm, avi.").
Proof.
  intros Hc Mo Mi He Hb Hm Hx. apply (post_first_reject pe st _ rest _ Hc Mo Mi He).
  intros st1. eexists. cbn -[includes bb_basename to_lower extname settle set_orig].
  destruct (String.eqb_spec (bb_basename raw) ""); [done|].
  rewrite Hm, Hx. split; [reflexivity|]. repeat split.
Qed.

(** X14: a first file part named [file] without a usable file name is answered
    400; nothing is saved and nothing is written to Redis or the queue. *)
Theorem post_missing_filename pe st raw mime data rest :
  (pe_ready pe = true \/ pe_connect pe = None) ->
  pe_mkdir pe (post_upload_dir pe) = None -> pe_mkdir pe (post_input_dir pe) = None ->
  pe_events pe = BFile "file" raw mime data :: rest ->
  option_map bb_basename raw = None \/ option_map bb_basename raw = Some "" ->
  post_process pe st =
    (mkdir_p (post_input_dir pe) (mkdir_p (post_upload_dir pe) st),
     fail_reply 400 "Uploaded file missing or invalid filename.").
Proof.
  intros Hc Mo Mi He Hr. apply (post_first_reject pe st _ rest _ Hc Mo Mi He).
  intros st1. eexists. cbn -[settle]. destruct Hr as [-> | ->]; (split; [reflexivity|]); repeat split.
Qed.

Lemma post_invalid_type_witness :
  post_process pe_bad_type st_post =
    (mkdir_p (post_input_dir pe_bad_type) (mkdir_p (post_upload_dir pe_bad_type) st_post),
     fail_reply 400 "Invalid file type. Allowed: mp4, mkv, webm, avi.").
Proof.
  apply (post_invalid_type pe_bad_type st_post "notes.txt" "text/plain" "hello" [BFinish]);
    [left; reflexivity|reflexivity|reflexivity|reflexivity|vm_compute; discriminate|reflexivity|reflexivity].
Defined.

Lemma post_missing_filename_witness :
  post_process pe_no_name st_post =
    (mkdir_p (post_input_dir pe_no_name) (mkdir_p (post_upload_dir pe_no_name) st_post),
     fail_reply 400 "Uploaded file missing or invalid filename.").
Proof.
  apply (post_missing_filename pe_no_name st_post None "video/mp4" "<mp4>" [BFinish]);
    [left; reflexivity|reflexivity|reflexivity|reflexivity|left; reflexivity].
Defined.
